(** * Artifact migration tools: [migrate-artifacts.py] and [fix-artifact-links.py]

    A shallow embedding of the two command-line tools under [src/cli] and the
    properties their specification states about them.

    Conventions of the embedding.
    - A Python [str] is a list of Unicode code points ([str := list N]);
      ASCII literals are written [lit "..."].
    - The character tables of the interpreter that lie outside ASCII
      ([str.isalnum], the decimal-digit table, the digit limit of [int])
      are fields of a [UnicodeData] record the definitions are
      parametrised by; everything inside ASCII is written out.
    - A Python [dict] is an association list in insertion order, a directory
      is an association list in listing order ([os.listdir] order).
    - A run of a tool returns the vault it leaves behind, the lines it
      printed (as structured events) and how the process ended. *)

From Stdlib Require Import List NArith ZArith Bool String Ascii Lia Arith.
Import ListNotations.

Set Implicit Arguments.

(* ================================================================== *)
(** * Python strings *)
(* ================================================================== *)

Definition char := N.
Definition str := list char.

(** An ASCII literal as a Python string. *)
Definition lit (s : string) : str :=
  map N_of_ascii (list_ascii_of_string s).

Definition ch (a : ascii) : char := N_of_ascii a.

Fixpoint str_eqb (a b : str) : bool :=
  match a, b with
  | [], [] => true
  | x :: a', y :: b' => N.eqb x y && str_eqb a' b'
  | _, _ => false
  end.

(** Code-point lexicographic order, the order [sorted] uses on [str]. *)
Fixpoint str_leb (a b : str) : bool :=
  match a, b with
  | [], _ => true
  | _ :: _, [] => false
  | x :: a', y :: b' =>
      if N.ltb x y then true
      else if N.eqb x y then str_leb a' b' else false
  end.

Fixpoint insert_sorted (x : str) (l : list str) : list str :=
  match l with
  | [] => [x]
  | y :: l' => if str_leb x y then x :: l else y :: insert_sorted x l'
  end.

(** [sorted(names)] *)
Definition sorted (l : list str) : list str := fold_right insert_sorted [] l.

Definition in_range (lo hi c : N) : bool := N.leb lo c && N.leb c hi.

Definition mem_char (c : char) (set : str) : bool := existsb (N.eqb c) set.

(** Unicode whitespace: [str.isspace], the class [\s] of a [str]
    pattern and the characters [str.strip()] removes. *)
Definition is_space (c : char) : bool :=
  in_range 9 13 c || in_range 28 32 c || N.eqb c 133 || N.eqb c 160
  || N.eqb c 5760 || in_range 8192 8202 c || N.eqb c 8232 || N.eqb c 8233
  || N.eqb c 8239 || N.eqb c 8287 || N.eqb c 12288.

(** The tables of the interpreter outside ASCII. *)
Record UnicodeData := {
  uni_alnum : char -> bool;          (* str.isalnum on a code point >= 128 *)
  uni_decimal : char -> option N;    (* decimal value of a code point >= 128 *)
  int_max_str_digits : N             (* sys.int_max_str_digits, 0 = no limit *)
}.

(** A run-time whose tables hold nothing outside ASCII. *)
Definition ascii_only : UnicodeData :=
  {| uni_alnum := fun _ => false; uni_decimal := fun _ => None;
     int_max_str_digits := 4300 |}.

Section Strings.

Context (U : UnicodeData).

Definition is_ascii_digit (c : char) : bool := in_range 48 57 c.

(** [\d] of a [str] pattern: a Unicode decimal digit. *)
Definition is_digit (c : char) : bool :=
  if N.ltb c 128 then is_ascii_digit c
  else match uni_decimal U c with Some _ => true | None => false end.

(** [\w] of a [str] pattern: alphanumeric or underscore. *)
Definition is_word (c : char) : bool :=
  if N.ltb c 128
  then is_ascii_digit c || in_range 65 90 c || in_range 97 122 c || N.eqb c 95
  else uni_alnum U c.

(** [0-9a-f] *)
Definition is_lower_hex (c : char) : bool :=
  is_ascii_digit c || in_range 97 102 c.

Fixpoint drop_while (p : char -> bool) (s : str) : str :=
  match s with
  | [] => []
  | c :: s' => if p c then drop_while p s' else s
  end.

Fixpoint take_while (p : char -> bool) (s : str) : str :=
  match s with
  | [] => []
  | c :: s' => if p c then c :: take_while p s' else []
  end.

(** Strip at the right end the characters satisfying [p]. *)
Definition rstrip_by (p : char -> bool) (s : str) : str :=
  rev (drop_while p (rev s)).

Definition strip_by (p : char -> bool) (s : str) : str :=
  rstrip_by p (drop_while p s).

(** [s.strip()] *)
Definition strip (s : str) : str := strip_by is_space s.

(** [s.strip(chars)] *)
Definition strip_chars (chars s : str) : str :=
  strip_by (fun c => mem_char c chars) s.

(** [s.rstrip("\n")] *)
Definition rstrip_nl (s : str) : str := rstrip_by (N.eqb 10) s.

Fixpoint starts_with (p s : str) : bool :=
  match p, s with
  | [], _ => true
  | x :: p', y :: s' => N.eqb x y && starts_with p' s'
  | _ :: _, [] => false
  end.

(** [s.endswith(p)] *)
Definition ends_with (p s : str) : bool := starts_with (rev p) (rev s).

(** [sub in s] *)
Fixpoint contains (sub s : str) : bool :=
  starts_with sub s
  || match s with
     | [] => false
     | _ :: s' => contains sub s'
     end.

(** [s.replace(old, new)] for a non-empty [old]: [skip] counts the
    characters of the occurrence just replaced that are still to be
    passed over. *)
Fixpoint replace_go (old new : str) (skip : nat) (s : str) : str :=
  match s with
  | [] => []
  | c :: s' =>
      match skip with
      | S k => replace_go old new k s'
      | O =>
          if starts_with old s
          then new ++ replace_go old new (List.length old - 1) s'
          else c :: replace_go old new 0 s'
      end
  end.

(** [s.replace(old, new)]; an empty [old] matches before every character
    and at the end. *)
Definition str_replace (old new s : str) : str :=
  match old with
  | [] => new ++ flat_map (fun c => c :: new) s
  | _ => replace_go old new 0 s
  end.

Fixpoint count_go (sub : str) (skip : nat) (s : str) : N :=
  match s with
  | [] => 0
  | _ :: s' =>
      match skip with
      | S k => count_go sub k s'
      | O =>
          if starts_with sub s
          then (1 + count_go sub (List.length sub - 1) s')%N
          else count_go sub 0 s'
      end
  end.

(** [s.count(sub)]: the number of non-overlapping occurrences. *)
Definition str_count (sub s : str) : N :=
  match sub with
  | [] => N.of_nat (S (List.length s))
  | _ => count_go sub 0 s
  end.

(** [s.split(sep)] for a one-character separator; [cur] is the part
    being read, reversed. *)
Fixpoint split_go (sep : char) (cur : str) (s : str) : list str :=
  match s with
  | [] => [rev cur]
  | c :: s' =>
      if N.eqb c sep then rev cur :: split_go sep [] s'
      else split_go sep (c :: cur) s'
  end.

Definition split_on (sep : char) (s : str) : list str := split_go sep [] s.

(** [f.readlines()]: the lines of a text, each with its ["\n"], the last
    one possibly without. *)
Fixpoint lines_go (cur : str) (s : str) : list str :=
  match s with
  | [] => match cur with [] => [] | _ => [rev cur] end
  | c :: s' =>
      if N.eqb c 10 then rev (c :: cur) :: lines_go [] s'
      else lines_go (c :: cur) s'
  end.

Definition readlines (s : str) : list str := lines_go [] s.


(* ---------------------------------------------------------------- *)
(** ** Regular expressions of the source, each written as its matcher *)

(** [$]: the end of the string, or just before a newline that ends it. *)
Definition at_dollar (s : str) : bool :=
  match s with
  | [] => true
  | [c] => N.eqb c 10
  | _ => false
  end.

(** [(.+)$] at [s]: a greedy non-empty run of characters other
    than newline, given back one by one until [$] holds. *)
Fixpoint dot_plus_dollar (s : str) : option str :=
  match s with
  | [] => None
  | c :: s' =>
      if N.eqb c 10 then None
      else match dot_plus_dollar s' with
           | Some v => Some (c :: v)
           | None => if at_dollar s' then Some [c] else None
           end
  end.

(** [\s*(.+)$] at [s]: the greedy [\s*] first tries to take one more
    white space character and on failure stops where it is. *)
Fixpoint ws_star_value (s : str) : option str :=
  match s with
  | [] => None
  | c :: s' =>
      if is_space c
      then match ws_star_value s' with
           | Some v => Some v
           | None => dot_plus_dollar s
           end
      else dot_plus_dollar s
  end.

(** [:\s*(.+)$] at [s]. *)
Definition colon_value (s : str) : option str :=
  match s with
  | c :: s' => if N.eqb c 58 then ws_star_value s' else None
  | [] => None
  end.

(** [\w+:\s*(.+)$] continued after the word characters [key] (reversed)
    already taken: greedy, longer keys first. *)
Fixpoint word_plus_rest (key : str) (s : str) : option (str * str) :=
  match s with
  | [] => None
  | c :: s' =>
      let stop := match key with
                  | [] => None
                  | _ => option_map (fun v => (rev key, v)) (colon_value s)
                  end in
      if is_word c
      then match word_plus_rest (c :: key) s' with
           | Some r => Some r
           | None => stop
           end
      else stop
  end.

(** [re.match(r"^(\w+):\s*(.+)$", s)]: groups 1 and 2. *)
Definition match_key_value (s : str) : option (str * str) :=
  word_plus_rest [] s.

(** [re.match(r"(\d{4})-(\d{2})-(\d{2})T", s)] and, for
    [date_prefix_re], [^\d{4}-\d{2}-\d{2}] followed by [tail]. *)
Definition match_date (tail : str) (s : str) : bool :=
  match s with
  | y1 :: y2 :: y3 :: y4 :: h1 :: m1 :: m2 :: h2 :: d1 :: d2 :: rest =>
      is_digit y1 && is_digit y2 && is_digit y3 && is_digit y4
      && N.eqb h1 45 && is_digit m1 && is_digit m2
      && N.eqb h2 45 && is_digit d1 && is_digit d2
      && starts_with tail rest
  | _ => false
  end.

(** [date_prefix_re = re.compile(r"^\d{4}-\d{2}-\d{2} - ")], used with
    [match]. *)
Definition date_prefix_re (s : str) : bool := match_date (lit " - ") s.

(** [[0-9a-f]{n}] at [s]: what follows the [n] characters. *)
Fixpoint hex_run (n : nat) (s : str) : option str :=
  match n with
  | O => Some s
  | S n' =>
      match s with
      | c :: s' => if is_lower_hex c then hex_run n' s' else None
      | [] => None
      end
  end.

Definition hyphen_then (k : str -> option str) (s : str) : option str :=
  match s with
  | c :: s' => if N.eqb c 45 then k s' else None
  | [] => None
  end.

(** [uuid_re]: [^[0-9a-f]{8}-[0-9a-f]{4}-[0-9a-f]{4}-[0-9a-f]{4}-[0-9a-f]{12}$],
    used with [match]. *)
Definition uuid_re (s : str) : bool :=
  match hex_run 8 s with
  | Some s1 =>
      match hyphen_then (hex_run 4) s1 with
      | Some s2 =>
          match hyphen_then (hex_run 4) s2 with
          | Some s3 =>
              match hyphen_then (hex_run 4) s3 with
              | Some s4 =>
                  match hyphen_then (hex_run 12) s4 with
                  | Some s5 => at_dollar s5
                  | None => false
                  end
              | None => false
              end
          | None => false
          end
      | None => false
      end
  | None => false
  end.

(* ---------------------------------------------------------------- *)
(** ** [int(s)] on a [str] *)

(** White space [int] skips at both ends. *)
Definition int_space (c : char) : bool :=
  if N.ltb c 128 then in_range 9 13 c || N.eqb c 32 else is_space c.

Definition int_digit (c : char) : option N :=
  if N.ltb c 128
  then (if is_ascii_digit c then Some (c - 48)%N else None)
  else uni_decimal U c.

(** The digits of a base-10 literal, single underscores allowed between
    digits: the value, the number of digits and what follows. [need] says
    that a digit has to come next. *)
Fixpoint int_digits (acc : Z) (cnt : N) (need : bool) (s : str)
  : option (Z * N * str) :=
  match s with
  | [] => if need then None else Some (acc, cnt, [])
  | c :: s' =>
      match int_digit c with
      | Some d => int_digits (10 * acc + Z.of_N d)%Z (cnt + 1)%N false s'
      | None =>
          if need then None
          else if N.eqb c 95 then int_digits acc cnt true s'
          else Some (acc, cnt, s)
      end
  end.

(** [int(s)]; [None] stands for [ValueError]. *)
Definition py_int (s : str) : option Z :=
  let s1 := drop_while int_space s in
  let '(neg, s2) :=
    match s1 with
    | c :: r => if N.eqb c 45 then (true, r)
                else if N.eqb c 43 then (false, r) else (false, s1)
    | [] => (false, s1)
    end in
  match int_digits 0 0 true s2 with
  | Some (v, cnt, rest) =>
      if forallb int_space rest
      then if N.eqb (int_max_str_digits U) 0
              || N.leb cnt (int_max_str_digits U)
           then Some (if neg then (- v)%Z else v)
           else None
      else None
  | None => None
  end.

End Strings.

(* ================================================================== *)
(** * Dictionaries *)
(* ================================================================== *)

Section Dict.

Variable V : Type.

(** A [dict] with [str] keys, in insertion order. *)
Definition dict := list (str * V).

Fixpoint dict_find (k : str) (d : dict) : option V :=
  match d with
  | [] => None
  | (k', v) :: d' => if str_eqb k k' then Some v else dict_find k d'
  end.

(** [d.get(k, dflt)] *)
Definition dict_get (k : str) (dflt : V) (d : dict) : V :=
  match dict_find k d with
  | Some v => v
  | None => dflt
  end.

(** [d[k] = v]: a key already present keeps its place. *)
Fixpoint dict_set (k : str) (v : V) (d : dict) : dict :=
  match d with
  | [] => [(k, v)]
  | (k', v') :: d' =>
      if str_eqb k k' then (k', v) :: d' else (k', v') :: dict_set k v d'
  end.

End Dict.

(* ================================================================== *)
(** * The field functions of the two scripts *)
(* ================================================================== *)

Section Fields.

Context (U : UnicodeData).

(** The body of [parse_frontmatter] once the lines are read: the loop
    over [lines] with its two variables [in_fm] and [fm]. *)
Fixpoint parse_lines (in_fm : bool) (fm : dict str) (lines : list str)
  : dict str :=
  match lines with
  | [] => fm
  | line :: rest =>
      let stripped := rstrip_nl line in
      if str_eqb stripped (lit "---")
      then (if in_fm then fm else parse_lines true fm rest)
      else if negb in_fm then parse_lines in_fm fm rest
      else match match_key_value U stripped with
           | Some (k, v) => parse_lines in_fm (dict_set k v fm) rest
           | None => parse_lines in_fm fm rest
           end
  end.

(** [parse_frontmatter] on what [open(...).readlines()] gives: [None]
    when opening or decoding raises, which the function catches. *)
Definition parse_frontmatter_text (content : option str) : dict str :=
  match content with
  | None => []
  | Some text => parse_lines false [] (readlines text)
  end.

(** [extract_first_alias] (migrate-artifacts.py) *)
Definition extract_first_alias (aliases_str : str) : str :=
  let content := strip aliases_str in
  let content :=
    if starts_with (lit "[") content then tl content else content in
  let content :=
    if ends_with (lit "]") content then removelast content else content in
  let first := strip (hd [] (split_on 44%N content)) in
  strip (strip_chars [39; 34]%N first).

(** [extract_second_alias] (fix-artifact-links.py) *)
Definition extract_second_alias (aliases_str : str) : str :=
  let content := strip_chars (lit "[]") (strip aliases_str) in
  let parts :=
    map (fun p => strip (strip_chars [39; 34]%N (strip p)))
        (split_on 44%N content) in
  match parts with
  | _ :: second :: _ => second
  | _ => []
  end.

(** The character class of the first substitution of [sanitize], as the
    pattern literal lists it. *)
Definition forbidden_chars : str :=
  lit "/\:*?" ++ [34%N] ++ lit "<>|#^[].'" ++ [34; 34; 34]%N.

(** [re.sub(r"\s+", " ", s)]; [in_run] says that the previous character
    was white space. *)
Fixpoint collapse_ws (in_run : bool) (s : str) : str :=
  match s with
  | [] => []
  | c :: s' =>
      if is_space c
      then (if in_run then collapse_ws true s' else 32%N :: collapse_ws true s')
      else c :: collapse_ws false s'
  end.

(** [sanitize] *)
Definition sanitize (name : str) : str :=
  let result :=
    map (fun c => if mem_char c forbidden_chars then 95%N else c) name in
  strip (collapse_ws false result).

(** [date_prefix] *)
Definition date_prefix (iso_str : str) : str :=
  match iso_str with
  | [] => []
  | _ => if match_date U (lit "T") iso_str then firstn 10 iso_str else []
  end.

End Fields.


(* ================================================================== *)
(** * The vault on disk *)
(* ================================================================== *)

(** A file holds its text as [f.read()] returns it, or [None] when
    reading it raises (it is not UTF-8 text); a directory holds its
    entries in the order [os.listdir] gives them. Names within one
    directory are distinct ([wf_dir]). *)
#[local] Set Warnings "-register-all".

Inductive node :=
| File (data : option str)
| Dir (entries : list (str * node)).

Abbreviation dirlist := (list (str * node)).

(** The two areas of a vault the scripts name: [AI/Attachments/claude/artifacts]
    and [AI/Conversations/claude]; [None] when the path does not exist. *)
Record vault := {
  artifacts : option node;
  conversations : option node
}.

Inductive exn :=
| IndexError
| FileNotFoundError
| IsADirectoryError
| NotADirectoryError
| DirectoryNotEmpty.

(** How a run of a script ends. *)
Inductive ending :=
| Finished
| SysExit (code : N)
| Uncaught (e : exn).

(** The exit status of the interpreter. *)
Definition exit_status (e : ending) : N :=
  match e with
  | Finished => 0
  | SysExit code => code
  | Uncaught _ => 1
  end.

(** A step that may raise: the state it reached comes with the exception. *)
Inductive outcome (S : Type) :=
| Ok (st : S)
| Raised (e : exn) (st : S).

Arguments Ok {S} st.
Arguments Raised {S} e st.

(** A [for] loop whose body may raise. *)
Fixpoint for_each {A S : Type} (body : A -> S -> outcome S) (l : list A)
  (st : S) : outcome S :=
  match l with
  | [] => Ok st
  | x :: l' =>
      match body x st with
      | Ok st' => for_each body l' st'
      | Raised e st' => Raised e st'
      end
  end.

Definition is_empty (s : str) : bool :=
  match s with [] => true | _ => false end.

Fixpoint lookup (name : str) (es : dirlist) : option node :=
  match es with
  | [] => None
  | (n, x) :: es' => if str_eqb name n then Some x else lookup name es'
  end.

Fixpoint remove (name : str) (es : dirlist) : dirlist :=
  match es with
  | [] => []
  | (n, x) :: es' =>
      if str_eqb name n then remove name es' else (n, x) :: remove name es'
  end.

(** Bind [name] to [x]: in place when the name is listed, else at the end. *)
Fixpoint put (name : str) (x : node) (es : dirlist) : dirlist :=
  match es with
  | [] => [(name, x)]
  | (n, y) :: es' =>
      if str_eqb name n then (n, x) :: es' else (n, y) :: put name x es'
  end.

(** [os.listdir] *)
Definition names (es : dirlist) : list str := map fst es.

Fixpoint distinct (l : list str) : bool :=
  match l with
  | [] => true
  | x :: l' => negb (existsb (str_eqb x) l') && distinct l'
  end.

Definition wf_dir (es : dirlist) : bool := distinct (names es).

(** [os.path.isdir] of an entry *)
Definition is_dir (x : option node) : bool :=
  match x with Some (Dir _) => true | _ => false end.

(** What [open(path).read()] gives; [None] when it raises. *)
Definition read_text (x : option node) : option str :=
  match x with
  | Some (File data) => data
  | _ => None
  end.

(** [os.rename(dir/src, dir/dst)] as POSIX defines it. *)
Definition os_rename (src dst : str) (es : dirlist) : exn + dirlist :=
  match lookup src es with
  | None => inl FileNotFoundError
  | Some x =>
      if str_eqb src dst then inr es
      else
        match x, lookup dst es with
        | File _, Some (Dir _) => inl IsADirectoryError
        | Dir _, Some (File _) => inl NotADirectoryError
        | Dir _, Some (Dir (_ :: _)) => inl DirectoryNotEmpty
        | _, _ => inr (put dst x (remove src es))
        end
  end.

(* ================================================================== *)
(** * What the scripts print *)
(* ================================================================== *)

Inductive event :=
| Usage (prog : str)
| ErrorArtifactsNotFound
| BuildingIndex
| FoundConversations (n : N)
| WarnNoConversation (conv_id : str)
| WarnNoTitle (folder art_fname : str)
| PrintRename (art_fname new_name : str)
| PrintFolder (entry new_foldername : str)
| PrintMerged (entry new_foldername : str)
| PrintMoved (entry new_foldername : str)
| MigrationSummary (moved file_renames skipped : N)
| BuildingMap
| FoundMappings (n : N)
| PrintUpdate (path : list str) (changes : Z)
| PrintUpdated (path : list str)
| PrintUpdateArtifact (folder_name fname : str)
| LinkSummary (updated_files : N) (updated_links : Z)
| DryRunNotice.

(** What a run leaves behind. *)
Record run := {
  run_vault : vault;
  run_output : list event;
  run_end : ending
}.

(* ================================================================== *)
(** * migrate-artifacts.py *)
(* ================================================================== *)

(** The three counters of [main] and the lines printed so far. *)
Record log := {
  moved : N;
  skipped : N;
  file_renames : N;
  printed : list event
}.

Definition log0 : log :=
  {| moved := 0; skipped := 0; file_renames := 0; printed := [] |}.

Definition say (e : event) (l : log) : log :=
  {| moved := moved l; skipped := skipped l;
     file_renames := file_renames l; printed := printed l ++ [e] |}.

Definition count_moved (l : log) : log :=
  {| moved := moved l + 1; skipped := skipped l;
     file_renames := file_renames l; printed := printed l |}.

Definition count_skipped (l : log) : log :=
  {| moved := moved l; skipped := skipped l + 1;
     file_renames := file_renames l; printed := printed l |}.

Definition count_renamed (l : log) : log :=
  {| moved := moved l; skipped := skipped l;
     file_renames := file_renames l + 1; printed := printed l |}.

(** The non-directory entries of a directory, in listing order, with what
    reading each gives: the [files] of one [os.walk] step. *)
Definition walk_files (es : dirlist) : list (str * option str) :=
  flat_map (fun e => match snd e with
                     | File data => [(fst e, data)]
                     | Dir _ => []
                     end) es.

(** [os.walk(top)], top-down: the files of every directory under [top],
    each with the path of its directory below [top]. Nothing is yielded
    when [top] is not a directory. *)
Fixpoint os_walk (root : list str) (top : node) {struct top}
  : list (list str * list (str * option str)) :=
  match top with
  | File _ => []
  | Dir es =>
      (root, walk_files es)
      :: (fix subdirs (l : dirlist) : list (list str * list (str * option str)) :=
            match l with
            | [] => []
            | (name, x) :: l' => os_walk (root ++ [name]) x ++ subdirs l'
            end) es
  end.

Section Migrate.

Context (U : UnicodeData).

Definition parse_frontmatter (x : option node) : dict str :=
  parse_frontmatter_text U (read_text x).

(** The body of the inner loop of [build_conversation_index]. *)
Definition index_file (f : str * option str) (idx : dict str * dict str)
  : dict str * dict str :=
  let '(fname, data) := f in
  let '(titles, dates) := idx in
  if negb (ends_with (lit ".md") fname) then idx
  else
    let fm := parse_frontmatter_text U data in
    let cid := dict_get (lit "conversation_id") [] fm in
    let aliases := dict_get (lit "aliases") [] fm in
    let ctime := dict_get (lit "create_time") [] fm in
    if negb (is_empty cid) && negb (is_empty aliases)
    then (dict_set cid aliases titles, dict_set cid ctime dates)
    else idx.

(** [build_conversation_index] *)
Definition build_conversation_index (conversations_dir : option node)
  : dict str * dict str :=
  match conversations_dir with
  | Some (Dir es) =>
      fold_left
        (fun idx step => fold_left (fun i f => index_file f i) (snd step) idx)
        (os_walk [] (Dir es)) ([], [])
  | _ => ([], [])
  end.

(** Lines 164-185 of [main]: the new name of an artifact file from its
    frontmatter; [None] when it has no title. *)
Definition art_new_name (fm : dict str) : option str :=
  let aliases := dict_get (lit "aliases") [] fm in
  let art_title :=
    if is_empty aliases then [] else extract_first_alias aliases in
  let art_version := dict_get (lit "version_number") (lit "1") fm in
  let art_time := dict_get (lit "create_time") [] fm in
  if is_empty art_title then None
  else
    let safe_art := sanitize art_title in
    let adp := date_prefix U art_time in
    let new_name := safe_art in
    let new_name :=
      match py_int U art_version with
      | Some v => if Z.ltb 1 v then new_name ++ lit " v" ++ art_version
                  else new_name
      | None => new_name
      end in
    let new_name :=
      if is_empty adp then new_name else adp ++ lit " - " ++ new_name in
    Some (new_name ++ lit ".md").

(** The body of the loop over the files of one folder (lines 158-192);
    the state is the folder's listing and the log. *)
Definition rename_step (dry_run : bool) (entry : str) (art_fname : str)
  (st : dirlist * log) : outcome (dirlist * log) :=
  let '(fes, lg) := st in
  if negb (ends_with (lit ".md") art_fname) then Ok st
  else
    match art_new_name (parse_frontmatter (lookup art_fname fes)) with
    | None => Ok (fes, count_skipped (say (WarnNoTitle entry art_fname) lg))
    | Some new_name =>
        if str_eqb art_fname new_name then Ok st
        else if dry_run
        then Ok (fes, count_renamed (say (PrintRename art_fname new_name) lg))
        else match os_rename art_fname new_name fes with
             | inr fes' => Ok (fes', count_renamed lg)
             | inl e => Raised e st
             end
    end.

(** Lines 201-205: move the entries of [src] whose name is free in [dst]. *)
Definition merge_step (f : str) (st : dirlist * dirlist)
  : dirlist * dirlist :=
  let '(src, dst) := st in
  match lookup f dst, lookup f src with
  | None, Some x => (remove f src, dst ++ [(f, x)])
  | _, _ => st
  end.

Definition merge_entries (src dst : dirlist) : dirlist * dirlist :=
  fold_left (fun st f => merge_step f st) (names src) (src, dst).

(** [os.rmdir(folder)] inside [try ... except OSError: pass]. *)
Definition rmdir_quiet (entry : str) (src : dirlist) (art : dirlist)
  : dirlist :=
  match src with
  | [] => remove entry art
  | _ => put entry (Dir src) art
  end.

(** [new_foldername] of lines 152-154. *)
Definition new_foldername_of (conv_title conv_date : str) : str :=
  let safe_title := sanitize conv_title in
  let cdp := date_prefix U conv_date in
  if is_empty cdp then safe_title else cdp ++ lit " - " ++ safe_title.

(** Lines 194-214 without the dry run: move or merge the folder [entry],
    whose listing is [fes], to [new_foldername]. *)
Definition move_folder (entry new_foldername : str) (fes : dirlist)
  (st : dirlist * log) : outcome (dirlist * log) :=
  let '(art, lg) := st in
  if is_empty new_foldername
  then
    (* [os.path.join(artifacts_dir, "")] is the artifacts directory *)
    let '(src', art') := merge_entries fes art in
    Ok (rmdir_quiet entry src' art',
        count_moved (say (PrintMerged entry new_foldername) lg))
  else
    match lookup new_foldername art with
    | Some (Dir dst) =>
        let '(src', dst') := merge_entries fes dst in
        Ok (rmdir_quiet entry src' (put new_foldername (Dir dst') art),
            count_moved (say (PrintMerged entry new_foldername) lg))
    | _ =>
        match os_rename entry new_foldername art with
        | inr art' =>
            Ok (art', count_moved (say (PrintMoved entry new_foldername) lg))
        | inl e => Raised e st
        end
    end.

(** The body of the loop over the artifacts directory (lines 129-214). *)
Definition folder_step (dry_run : bool) (conv_titles conv_dates : dict str)
  (entry : str) (st : dirlist * log) : outcome (dirlist * log) :=
  let '(art, lg) := st in
  match lookup entry art with
  | Some (Dir fes) =>
      if date_prefix_re U entry then Ok st
      else if negb (uuid_re entry) then Ok st
      else
        let conv_id := entry in
        let conv_title := dict_get conv_id [] conv_titles in
        let conv_date := dict_get conv_id [] conv_dates in
        if is_empty conv_title
        then Ok (art, count_skipped (say (WarnNoConversation conv_id) lg))
        else
          let new_foldername := new_foldername_of conv_title conv_date in
          match for_each (rename_step dry_run entry)
                  (sorted (names fes)) (fes, lg) with
          | Raised e (fes', lg') => Raised e (put entry (Dir fes') art, lg')
          | Ok (fes', lg') =>
              let art1 := put entry (Dir fes') art in
              if str_eqb entry new_foldername then Ok (art1, lg')
              else if dry_run
              then Ok (art1, count_moved
                               (say (PrintFolder entry new_foldername) lg'))
              else move_folder entry new_foldername fes' (art1, lg')
          end
  | _ => Ok st
  end.

(** The loop of [main] over [sorted(os.listdir(artifacts_dir))]. *)
Definition migrate_folders (dry_run : bool) (conv_titles conv_dates : dict str)
  (art : dirlist) (lg : log) : outcome (dirlist * log) :=
  for_each (folder_step dry_run conv_titles conv_dates)
    (sorted (names art)) (art, lg).

Definition dry_run_flag (argv : list str) : bool :=
  existsb (str_eqb (lit "--dry-run")) argv.

Definition summary (dry_run : bool) (lg : log) : list event :=
  printed lg
  ++ [MigrationSummary (moved lg) (file_renames lg) (skipped lg)]
  ++ (if dry_run then [DryRunNotice] else []).

(** [main] of migrate-artifacts.py, run with [sys.argv = argv] on the
    vault [sys.argv[1]] names. *)
Definition migrate_main (argv : list str) (v : vault) : run :=
  match argv with
  | [] => {| run_vault := v; run_output := []; run_end := Uncaught IndexError |}
  | [prog] =>
      {| run_vault := v; run_output := [Usage prog]; run_end := SysExit 1 |}
  | _ :: _ :: _ =>
      let dry_run := dry_run_flag argv in
      match artifacts v with
      | Some (Dir art) =>
          let '(conv_titles, conv_dates) :=
            build_conversation_index (conversations v) in
          let lg :=
            say (FoundConversations (N.of_nat (List.length conv_titles)))
              (say BuildingIndex log0) in
          match migrate_folders dry_run conv_titles conv_dates art lg with
          | Ok (art', lg') =>
              {| run_vault := {| artifacts := Some (Dir art');
                                 conversations := conversations v |};
                 run_output := summary dry_run lg';
                 run_end := Finished |}
          | Raised e (art', lg') =>
              {| run_vault := {| artifacts := Some (Dir art');
                                 conversations := conversations v |};
                 run_output := printed lg';
                 run_end := Uncaught e |}
          end
      | _ =>
          {| run_vault := v; run_output := [ErrorArtifactsNotFound];
             run_end := SysExit 1 |}
      end
  end.

End Migrate.

(* ================================================================== *)
(** * fix-artifact-links.py *)
(* ================================================================== *)

(** The two counters of [main] and the lines printed so far. *)
Record flog := {
  updated_files : N;
  updated_links : Z;
  fprinted : list event
}.

Definition fsay (e : event) (l : flog) : flog :=
  {| updated_files := updated_files l; updated_links := updated_links l;
     fprinted := fprinted l ++ [e] |}.

Definition count_update (changes : Z) (l : flog) : flog :=
  {| updated_files := updated_files l + 1;
     updated_links := updated_links l + changes;
     fprinted := fprinted l |}.

(** The file at [path] below a node, as [open(path).read()] gives it. *)
Fixpoint read_at (path : list str) (x : node) : option str :=
  match path with
  | [] => read_text (Some x)
  | name :: rest =>
      match x with
      | Dir es =>
          match lookup name es with
          | Some y => read_at rest y
          | None => None
          end
      | File _ => None
      end
  end.

(** [open(path, "w").write(text)] on an existing file. *)
Fixpoint write_at (path : list str) (text : str) (x : node) : node :=
  match path with
  | [] => match x with File _ => File (Some text) | Dir _ => x end
  | name :: rest =>
      match x with
      | Dir es =>
          match lookup name es with
          | Some y => Dir (put name (write_at rest text y) es)
          | None => x
          end
      | File _ => x
      end
  end.

(** The legacy embed marker, U+1F3A8 followed by [" [["], and its
    replacement. *)
Definition legacy_marker : str := 127912%N :: lit " [[".
Definition embed_marker : str := lit "![[".

Definition link_prefix : str := lit "AI/Attachments/claude/artifacts/".

(** The loop over [link_map.items()] of the conversation pass (lines
    121-124), with its change counter. *)
Fixpoint apply_links_count (link_map : dict str) (content new_content : str)
  (file_changes : Z) : str * Z :=
  match link_map with
  | [] => (new_content, file_changes)
  | (old_path, new_path) :: rest =>
      if contains old_path new_content
      then
        let new_content := str_replace old_path new_path new_content in
        apply_links_count rest content new_content
          (file_changes + Z.of_N (str_count new_path new_content)
           - Z.of_N (str_count new_path content))
      else apply_links_count rest content new_content file_changes
  end.

(** The loop over [link_map.items()] of the artifact pass (lines 161-163). *)
Fixpoint apply_links (link_map : dict str) (new_content : str) : str :=
  match link_map with
  | [] => new_content
  | (old_path, new_path) :: rest =>
      if contains old_path new_content
      then apply_links rest (str_replace old_path new_path new_content)
      else apply_links rest new_content
  end.

(** Lines 115-130: what the conversation pass makes of the text of one
    document, and the changes it counts. *)
Definition conversation_text (link_map : dict str) (content : str)
  : str * Z :=
  if negb (contains (lit "artifacts/") content) then (content, 0%Z)
  else
    let '(new_content, file_changes) :=
      apply_links_count link_map content content 0 in
    if contains legacy_marker new_content
    then (str_replace legacy_marker embed_marker new_content,
          (file_changes + Z.of_N (str_count legacy_marker new_content))%Z)
    else (new_content, file_changes).

(** Lines 157-163: what the artifact pass makes of the text of one
    document. *)
Definition artifact_text (link_map : dict str) (content : str) : str :=
  if negb (contains (lit "artifacts/") content) then content
  else apply_links link_map content.

Section FixLinks.

Context (U : UnicodeData).

(** The body of the inner loop of pass 1 (lines 71-95). *)
Definition index_artifact (folder_name : str) (fes : dirlist) (fname : str)
  (link_map : dict str) : dict str :=
  if negb (ends_with (lit ".md") fname) then link_map
  else
    let fm := parse_frontmatter U (lookup fname fes) in
    let conv_id := dict_get (lit "conversation_id") [] fm in
    let aliases := dict_get (lit "aliases") [] fm in
    if is_empty conv_id || is_empty aliases then link_map
    else
      let old_stem := extract_second_alias aliases in
      if is_empty old_stem then link_map
      else
        let new_stem := firstn (List.length fname - 3) fname in
        let old_link := link_prefix ++ conv_id ++ lit "/" ++ old_stem in
        let new_link := link_prefix ++ folder_name ++ lit "/" ++ new_stem in
        if str_eqb old_link new_link then link_map
        else dict_set old_link new_link link_map.

(** The body of the outer loop of pass 1 (lines 66-95). *)
Definition index_folder (art : dirlist) (folder_name : str)
  (link_map : dict str) : dict str :=
  match lookup folder_name art with
  | Some (Dir fes) =>
      fold_left (fun lm fname => index_artifact folder_name fes fname lm)
        (names fes) link_map
  | _ => link_map
  end.

(** Pass 1 (lines 62-95). *)
Definition build_link_map (art : dirlist) : dict str :=
  fold_left (fun lm folder_name => index_folder art folder_name lm)
    (sorted (names art)) [].

(** The body of the conversation loop (lines 105-140) for the file
    [fname] of the directory [root]; the state is the conversations tree
    and the log. *)
Definition fix_conversation_file (dry_run : bool) (link_map : dict str)
  (root : list str) (fname : str) (st : node * flog) : node * flog :=
  let '(conv, lg) := st in
  if negb (ends_with (lit ".md") fname) then st
  else
    let fpath := root ++ [fname] in
    match read_at fpath conv with
    | None => st
    | Some content =>
        let '(new_content, file_changes) :=
          conversation_text link_map content in
        if str_eqb new_content content then st
        else if dry_run
        then (conv, count_update file_changes
                      (fsay (PrintUpdate fpath file_changes) lg))
        else (write_at fpath new_content conv,
              count_update file_changes (fsay (PrintUpdated fpath) lg))
    end.

(** The loop over [os.walk(conversations_dir)] (lines 103-140). *)
Definition fix_conversations (dry_run : bool) (link_map : dict str)
  (conv : node) (lg : flog) : node * flog :=
  fold_left
    (fun st step =>
       fold_left
         (fun st f => fix_conversation_file dry_run link_map (fst step)
                        (fst f) st)
         (snd step) st)
    (os_walk [] conv) (conv, lg).

(** The body of the inner loop of the artifact pass (lines 148-171). *)
Definition fix_artifact_file (dry_run : bool) (link_map : dict str)
  (folder_name : str) (st : dirlist * flog) (fname : str) : dirlist * flog :=
  let '(fes, lg) := st in
  if negb (ends_with (lit ".md") fname) then st
  else
    match read_text (lookup fname fes) with
    | None => st
    | Some content =>
        let new_content := artifact_text link_map content in
        if str_eqb new_content content then st
        else if dry_run
        then (fes, count_update 0
                     (fsay (PrintUpdateArtifact folder_name fname) lg))
        else (put fname (File (Some new_content)) fes, count_update 0 lg)
    end.

(** The body of the outer loop of the artifact pass (lines 143-171). *)
Definition fix_artifact_folder (dry_run : bool) (link_map : dict str)
  (st : dirlist * flog) (folder_name : str) : dirlist * flog :=
  let '(art, lg) := st in
  match lookup folder_name art with
  | Some (Dir fes) =>
      let '(fes', lg') :=
        fold_left (fix_artifact_file dry_run link_map folder_name)
          (names fes) (fes, lg) in
      (put folder_name (Dir fes') art, lg')
  | _ => st
  end.

Definition fix_artifacts (dry_run : bool) (link_map : dict str)
  (art : dirlist) (lg : flog) : dirlist * flog :=
  fold_left (fix_artifact_folder dry_run link_map) (sorted (names art))
    (art, lg).

Definition link_summary (dry_run : bool) (lg : flog) : list event :=
  fprinted lg
  ++ [LinkSummary (updated_files lg) (updated_links lg)]
  ++ (if dry_run then [DryRunNotice] else []).

(** [main] of fix-artifact-links.py, run with [sys.argv = argv] on the
    vault [sys.argv[1]] names. [os.listdir(artifacts_dir)] raises when
    the artifacts directory is not there. *)
Definition fix_main (argv : list str) (v : vault) : run :=
  match argv with
  | [] => {| run_vault := v; run_output := []; run_end := Uncaught IndexError |}
  | [prog] =>
      {| run_vault := v; run_output := [Usage prog]; run_end := SysExit 1 |}
  | _ :: _ :: _ =>
      let dry_run := dry_run_flag argv in
      match artifacts v with
      | None =>
          {| run_vault := v; run_output := [BuildingMap];
             run_end := Uncaught FileNotFoundError |}
      | Some (File _) =>
          {| run_vault := v; run_output := [BuildingMap];
             run_end := Uncaught NotADirectoryError |}
      | Some (Dir art) =>
          let link_map := build_link_map art in
          let lg :=
            {| updated_files := 0; updated_links := 0;
               fprinted := [BuildingMap;
                            FoundMappings (N.of_nat (List.length link_map))] |} in
          let '(conv', lg1) :=
            match conversations v with
            | Some conv =>
                let '(c, l) := fix_conversations dry_run link_map conv lg in
                (Some c, l)
            | None => (None, lg)
            end in
          let '(art', lg2) := fix_artifacts dry_run link_map art lg1 in
          {| run_vault := {| artifacts := Some (Dir art');
                             conversations := conv' |};
             run_output := link_summary dry_run lg2;
             run_end := Finished |}
      end
  end.

End FixLinks.


(* ================================================================== *)
(** * The frontmatter block as the specification words it *)
(* ================================================================== *)

Section ExtractorSpec.

Context (U : UnicodeData).

(** A line equal to the sentinel, its newline apart. *)
Definition is_sentinel (line : str) : bool :=
  str_eqb (rstrip_nl line) (lit "---").

(** The lines after the first sentinel. *)
Fixpoint after_sentinel (lines : list str) : list str :=
  match lines with
  | [] => []
  | l :: rest => if is_sentinel l then rest else after_sentinel rest
  end.

(** The lines before the first sentinel. *)
Fixpoint before_sentinel (lines : list str) : list str :=
  match lines with
  | [] => []
  | l :: rest => if is_sentinel l then [] else l :: before_sentinel rest
  end.

(** The block of the specification: the lines strictly between the first
    sentinel and the second (or the end of the text). *)
Definition frontmatter_block (lines : list str) : list str :=
  before_sentinel (after_sentinel lines).

(** What one line of the block stores. *)
Definition store_line (fm : dict str) (line : str) : dict str :=
  match match_key_value U (rstrip_nl line) with
  | Some (k, v) => dict_set k v fm
  | None => fm
  end.

(** The mapping as the specification describes it. *)
Definition frontmatter_spec (lines : list str) : dict str :=
  fold_left store_line (frontmatter_block lines) [].

End ExtractorSpec.

(* ================================================================== *)
(** * Concrete inputs used by examples *)
(* ================================================================== *)

Definition nl : str := [10%N].

(** A text given line by line. *)
Definition text_of (lines : list str) : str :=
  flat_map (fun l => l ++ nl) lines.

Definition sample_lines : list str :=
  [lit "title: outside" ++ nl; lit "---" ++ nl; lit "aliases: [A, a]" ++ nl;
   lit "not a field" ++ nl; lit "aliases:   [B, b]" ++ nl; lit "---" ++ nl;
   lit "aliases: [C, c]" ++ nl].

(** Curly double quotes around a letter. *)
Definition curly_quoted : str := [8220; 97; 8221]%N.

(** White space is collapsed in [s]: every white space character is a
    space and none follows another; [prev] says that a white space
    character comes just before [s]. *)
Fixpoint ws_normal (prev : bool) (s : str) : bool :=
  match s with
  | [] => true
  | c :: s' =>
      if is_space c then N.eqb c 32 && negb prev && ws_normal true s'
      else ws_normal false s'
  end.

(** The end-to-end scenario of the specification: one artifact folder
    named by a conversation id, holding [draft.md], and the record of
    that conversation. The texts after the frontmatter are left open. *)
Definition uuid1 : str := lit "11111111-1111-1111-1111-111111111111".

Definition draft_frontmatter : str :=
  text_of [lit "---";
           lit "conversation_id: 11111111-1111-1111-1111-111111111111";
           lit "aliases: [My Title, draft]";
           lit "create_time: 2024-01-02T00:00:00Z";
           lit "version_number: 2";
           lit "---"].

Definition record_frontmatter : str :=
  text_of [lit "---";
           lit "conversation_id: 11111111-1111-1111-1111-111111111111";
           lit "aliases: [My Conversation]";
           lit "create_time: 2024-01-01T00:00:00Z";
           lit "---"].

Definition scenario_vault (draft_body record_body : str) : vault :=
  {| artifacts :=
       Some (Dir [(uuid1,
                   Dir [(lit "draft.md",
                         File (Some (draft_frontmatter ++ draft_body)))])]);
     conversations :=
       Some (Dir [(lit "My Conversation.md",
                   File (Some (record_frontmatter ++ record_body)))]) |}.

Definition scenario_argv : list str := [lit "tool.py"; lit "/vault"].

Definition old_link : str :=
  lit "AI/Attachments/claude/artifacts/11111111-1111-1111-1111-111111111111/draft".

(** The new link the specification expects, and the one the code builds. *)
Definition expected_folder : str := lit "2024-01-01 - My Conversation".
Definition actual_folder : str := lit "2024-01-01 - _My Conversation_".
Definition new_file : str := lit "2024-01-02 - My Title v2.md".

Definition expected_link : str :=
  lit "AI/Attachments/claude/artifacts/2024-01-01 - My Conversation/2024-01-02 - My Title v2".

Definition actual_link : str :=
  lit "AI/Attachments/claude/artifacts/2024-01-01 - _My Conversation_/2024-01-02 - My Title v2".

(** A conversation text that embeds the draft twice. *)
Definition record_body0 : str :=
  text_of [lit "See [[AI/Attachments/claude/artifacts/11111111-1111-1111-1111-111111111111/draft|Draft]]";
           legacy_marker
             ++ lit "AI/Attachments/claude/artifacts/11111111-1111-1111-1111-111111111111/draft]]"].

(** The end-to-end scenario as the specification words it: the folder
    becomes [2024-01-01 - My Conversation] and the links point there. *)
Definition scenario_as_specified (U : UnicodeData)
  (draft_body record_body : str) : Prop :=
  let r1 := migrate_main U scenario_argv
              (scenario_vault draft_body record_body) in
  let r2 := fix_main U scenario_argv (run_vault r1) in
  artifacts (run_vault r1)
  = Some (Dir [(expected_folder,
                Dir [(new_file,
                      File (Some (draft_frontmatter ++ draft_body)))])])
  /\ conversations (run_vault r2)
     = Some (Dir [(lit "My Conversation.md",
                   File (Some (str_replace legacy_marker embed_marker
                                 (str_replace old_link expected_link
                                    (record_frontmatter ++ record_body)))))]).

(** Two artifact files with the same title, date and version. *)
Definition twin_text (body : str) : str :=
  text_of [lit "---"; lit "aliases: [Plan, plan_v1]";
           lit "create_time: 2024-05-06T07:08:09Z"; lit "---"] ++ body.

Definition twin_folder : dirlist :=
  [(lit "a.md", File (Some (twin_text (lit "first"))));
   (lit "b.md", File (Some (twin_text (lit "second"))))].

(* ================================================================== *)
(** * The scope of the link index *)
(* ================================================================== *)

(** The file [fname] of the folder [folder_name] (listing [fes]) gives
    the mapping entry [old_link -> new_link]: its name ends in [.md], its
    frontmatter has a [conversation_id], an [aliases] value and a second
    alias, and the two links differ. *)
Definition gives_link (U : UnicodeData) (folder_name : str) (fes : dirlist)
  (fname old_link new_link : str) : Prop :=
  let fm := parse_frontmatter U (lookup fname fes) in
  let conv_id := dict_get (lit "conversation_id") [] fm in
  let aliases := dict_get (lit "aliases") [] fm in
  ends_with (lit ".md") fname = true
  /\ conv_id <> [] /\ aliases <> []
  /\ extract_second_alias aliases <> []
  /\ old_link
     = link_prefix ++ conv_id ++ lit "/" ++ extract_second_alias aliases
  /\ new_link
     = link_prefix ++ folder_name ++ lit "/"
       ++ firstn (List.length fname - 3) fname
  /\ old_link <> new_link.

(** Some file of some folder of the artifacts directory gives the entry;
    [named] restricts the folders by name. *)
Definition link_source (U : UnicodeData) (named : str -> bool)
  (art : dirlist) (old_link new_link : str) : Prop :=
  exists folder_name fes fname,
    In folder_name (names art) /\ named folder_name = true
    /\ lookup folder_name art = Some (Dir fes)
    /\ In fname (names fes)
    /\ gives_link U folder_name fes fname old_link new_link.

(** The index scope as the specification words it: entries come from
    dated-prefix folders only. *)
Definition index_scope_as_specified (U : UnicodeData) (art : dirlist) : Prop :=
  forall old_link new_link,
    In (old_link, new_link) (build_link_map U art) ->
    link_source U (date_prefix_re U) art old_link new_link.

(** An artifacts directory that was never migrated. *)
Definition unmigrated_artifacts : dirlist :=
  [(uuid1, Dir [(lit "notes.md", File (Some draft_frontmatter))])].

(* ================================================================== *)
(** * Marker normalization as the specification words it *)
(* ================================================================== *)

(** An artifact document that links to a sibling with the legacy marker. *)
Definition marked_artifact : str :=
  draft_frontmatter
  ++ legacy_marker ++ lit "AI/Attachments/claude/artifacts/x/y]]" ++ nl.

Definition marked_vault : vault :=
  {| artifacts :=
       Some (Dir [(actual_folder,
                   Dir [(new_file, File (Some marked_artifact))])]);
     conversations := Some (Dir []) |}.

(** Marker normalization as the specification words it for the artifact
    pass: after a run no [.md] document of an artifact folder that holds
    ["artifacts/"] holds the legacy marker. *)
Definition artifact_markers_as_specified (U : UnicodeData) (v : vault) : Prop :=
  forall art folder_name fes fname c,
    artifacts (run_vault (fix_main U scenario_argv v)) = Some (Dir art) ->
    lookup folder_name art = Some (Dir fes) ->
    lookup fname fes = Some (File (Some c)) ->
    ends_with (lit ".md") fname = true ->
    contains (lit "artifacts/") c = true ->
    contains legacy_marker c = false.

(* ================================================================== *)
(** * Exit status as the specification words it *)
(* ================================================================== *)

(** The scenario vault with, beside [draft.md], a directory that already
    has the name the draft is to get. *)
Definition blocked_vault : vault :=
  {| artifacts :=
       Some (Dir [(uuid1,
                   Dir [(lit "draft.md", File (Some draft_frontmatter));
                        (new_file, Dir [])])]);
     conversations :=
       Some (Dir [(lit "My Conversation.md",
                   File (Some record_frontmatter))]) |}.

(** "Otherwise the exit status is 0", for the Migrator. *)
Definition exit_status_as_specified (U : UnicodeData) (argv : list str)
  (v : vault) : Prop :=
  (2 <= List.length argv)%nat -> is_dir (artifacts v) = true ->
  exit_status (run_end (migrate_main U argv v)) = 0%N.

Definition dry_run_argv : list str :=
  [lit "tool.py"; lit "/vault"; lit "--dry-run"].

(* ================================================================== *)
(** * Folder merges as the specification words them *)
(* ================================================================== *)

Definition uuid2 : str := lit "22222222-2222-2222-2222-222222222222".

Definition record_of (conv_id title : str) : str :=
  text_of [lit "---"; lit "conversation_id: " ++ conv_id;
           lit "aliases: " ++ title;
           lit "create_time: 2024-01-01T00:00:00Z"; lit "---"].

(** Two artifact folders of two conversations with the same title and
    date, each holding a picture of the same name. *)
Definition shared_vault : vault :=
  {| artifacts :=
       Some (Dir [(uuid1, Dir [(lit "img.png", File (Some (lit "first")))]);
                  (uuid2, Dir [(lit "img.png", File (Some (lit "second")))])]);
     conversations :=
       Some (Dir [(lit "one.md", File (Some (record_of uuid1 (lit "Shared"))));
                  (lit "two.md", File (Some (record_of uuid2 (lit "Shared"))))])
  |}.

Definition shared_folder : str := lit "2024-01-01 - Shared".

(** "Every file originally present in either source folder exists in the
    destination folder", for the entries the Migrator does not rename. *)
Definition merge_as_specified (U : UnicodeData) (v : vault)
  (a b target : str) : Prop :=
  forall art fa fb art',
    artifacts v = Some (Dir art) ->
    lookup a art = Some (Dir fa) -> lookup b art = Some (Dir fb) ->
    artifacts (run_vault (migrate_main U scenario_argv v)) = Some (Dir art') ->
    exists ft,
      lookup target art' = Some (Dir ft)
      /\ forall f x,
           ends_with (lit ".md") f = false ->
           lookup f fa = Some x \/ lookup f fb = Some x ->
           lookup f ft = Some x.

(* ================================================================== *)
(** * Notions for the idempotence of the Migrator *)
(* ================================================================== *)

Section Idempotence.

Context (U : UnicodeData) (conv_titles conv_dates : dict str).

(** The folder name the Migrator computes for the entry [entry]. *)
Definition target_of (entry : str) : str :=
  new_foldername_of U (dict_get entry [] conv_titles)
    (dict_get entry [] conv_dates).

(** The tests of lines 135-149 on the name of an entry: not dated,
    shaped like a conversation id, and with a title in the index. *)
Definition active (entry : str) : bool :=
  negb (date_prefix_re U entry) && uuid_re entry
  && negb (is_empty (dict_get entry [] conv_titles)).

(** No conversation of the index sends its folder to the artifacts
    directory itself or to a name shaped like a conversation id. *)
Definition targets_settle : bool :=
  forallb (fun entry =>
             negb (active entry)
             || (negb (is_empty (target_of entry))
                 && negb (uuid_re (target_of entry))))
    (map fst conv_titles).

(** The file named [f] in the listing [fes] has the name the Migrator
    gives it, or none to give. *)
Definition file_settled (fes : dirlist) (f : str) : Prop :=
  match art_new_name U (parse_frontmatter U (lookup f fes)) with
  | Some new_name => new_name = f
  | None => True
  end.

Definition settled (fes : dirlist) : Prop :=
  forall f, ends_with (lit ".md") f = true -> file_settled fes f.

(** The entry [entry] of the artifacts listing [art] is one a run leaves
    alone: when it is a folder the Migrator works on, its files are
    settled, its target exists and has an entry for each of its names,
    and it is not empty. *)
Definition quiet (art : dirlist) (entry : str) : Prop :=
  match lookup entry art with
  | Some (Dir fes) =>
      active entry = true ->
      settled fes /\ fes <> []
      /\ exists dst,
           lookup (target_of entry) art = Some (Dir dst)
           /\ forall f, lookup f fes <> None -> lookup f dst <> None
  | _ => True
  end.

End Idempotence.

(** A conversation whose title is shaped like a conversation id and
    which has no creation time, and the conversation of that id. *)
Definition chained_vault : vault :=
  {| artifacts :=
       Some (Dir [(uuid1, Dir [(lit "img.png", File (Some (lit "first")))])]);
     conversations :=
       Some (Dir [(lit "one.md",
                   File (Some (text_of [lit "---";
                                        lit "conversation_id: " ++ uuid1;
                                        lit "aliases: " ++ uuid2;
                                        lit "---"])));
                  (lit "two.md",
                   File (Some (record_of uuid2 (lit "Hello"))))]) |}.

(** Idempotence as the specification words it: a second run leaves the
    vault of the first. *)
Definition idempotent_as_specified (U : UnicodeData) (v : vault) : Prop :=
  let r1 := migrate_main U scenario_argv v in
  run_vault (migrate_main U scenario_argv (run_vault r1)) = run_vault r1.

(* ================================================================== *)
(** * Invariants of the dictionaries *)
(* ================================================================== *)

(** What the loop of [build_conversation_index] keeps true of its two
    dictionaries: the same ids in the same order, and no empty id or
    title. *)
Definition index_ok (idx : dict str * dict str) : Prop :=
  map fst (fst idx) = map fst (snd idx)
  /\ forall k t, In (k, t) (fst idx) -> k <> [] /\ t <> [].
(* ================================================================== *)
(** * Basic facts about strings, dictionaries and listings *)
(* ================================================================== *)

Unset Implicit Arguments.

Lemma str_eqb_refl (a : str) : str_eqb a a = true.
Proof.
  induction a as [|x a IH]; simpl; [reflexivity|].
  now rewrite N.eqb_refl, IH.
Qed.

Lemma str_eqb_eq (a b : str) : str_eqb a b = true <-> a = b.
Proof.
  split.
  - revert b; induction a as [|x a IH]; intros [|y b]; simpl; try discriminate.
    + reflexivity.
    + intros H. apply andb_true_iff in H as [Hx Hab].
      apply N.eqb_eq in Hx. subst y. f_equal. now apply IH.
  - intros ->. apply str_eqb_refl.
Qed.

Lemma str_eqb_neq (a b : str) : str_eqb a b = false <-> a <> b.
Proof.
  rewrite <- str_eqb_eq. destruct (str_eqb a b); split; congruence.
Qed.

Lemma str_eqb_sym (a b : str) : str_eqb a b = str_eqb b a.
Proof.
  destruct (str_eqb a b) eqn:E.
  - apply str_eqb_eq in E. subst. symmetry. apply str_eqb_refl.
  - symmetry. apply str_eqb_neq. apply str_eqb_neq in E. congruence.
Qed.

(** Case analysis on a string comparison. *)
Ltac str_cases a b :=
  let E := fresh "E" in
  destruct (str_eqb a b) eqn:E;
  [apply str_eqb_eq in E; try subst | pose proof E as E'; apply str_eqb_neq in E'].

(* ================================================================== *)
(** * The frontmatter extractor *)
(* ================================================================== *)

Section Extractor.

Context (U : UnicodeData).

Lemma parse_lines_inside (lines : list str) (fm : dict str) :
  parse_lines U true fm lines = fold_left (store_line U) (before_sentinel lines) fm.
Proof.
  revert fm; induction lines as [|l rest IH]; intros fm; simpl; [reflexivity|].
  unfold is_sentinel.
  destruct (str_eqb (rstrip_nl l) (lit "---")); simpl; [reflexivity|].
  unfold store_line at 2.
  destruct (match_key_value U (rstrip_nl l)) as [[k v]|]; apply IH.
Qed.

Lemma parse_lines_outside (lines : list str) (fm : dict str) :
  parse_lines U false fm lines
  = fold_left (store_line U) (frontmatter_block lines) fm.
Proof.
  unfold frontmatter_block.
  induction lines as [|l rest IH]; simpl; [reflexivity|].
  unfold is_sentinel.
  destruct (str_eqb (rstrip_nl l) (lit "---")); simpl.
  - apply parse_lines_inside.
  - apply IH.
Qed.

Lemma no_sentinel_block (lines : list str) :
  existsb is_sentinel lines = false -> frontmatter_block lines = [].
Proof.
  unfold frontmatter_block.
  induction lines as [|l rest IH]; simpl; [reflexivity|].
  destruct (is_sentinel l); simpl; [discriminate|exact IH].
Qed.

Lemma block_of_delimited (pre block rest : list str) (s1 s2 : str) :
  existsb is_sentinel pre = false ->
  existsb is_sentinel block = false ->
  is_sentinel s1 = true -> is_sentinel s2 = true ->
  frontmatter_block (pre ++ s1 :: block ++ s2 :: rest) = block.
Proof.
  intros Hpre Hblock H1 H2. unfold frontmatter_block.
  induction pre as [|l pre IH]; simpl.
  - rewrite H1. clear Hpre.
    induction block as [|b block IHb]; simpl.
    + now rewrite H2.
    + simpl in Hblock. apply orb_false_iff in Hblock as [Hb Hblock].
      rewrite Hb. f_equal. now apply IHb.
  - simpl in Hpre. apply orb_false_iff in Hpre as [Hl Hpre].
    rewrite Hl. now apply IH.
Qed.

End Extractor.

Lemma dict_find_set_eq (V : Type) (k : str) (v : V) (d : dict V) :
  dict_find k (dict_set k v d) = Some v.
Proof.
  induction d as [|[k' v'] d IH]; simpl.
  - now rewrite str_eqb_refl.
  - destruct (str_eqb k k') eqn:E; simpl; rewrite E; [reflexivity|exact IH].
Qed.

Lemma dict_find_set_neq (V : Type) (k k0 : str) (v : V) (d : dict V) :
  k0 <> k -> dict_find k0 (dict_set k v d) = dict_find k0 d.
Proof.
  intros Hne. induction d as [|[k' v'] d IH]; simpl.
  - apply str_eqb_neq in Hne. now rewrite Hne.
  - destruct (str_eqb k k') eqn:E; simpl.
    + apply str_eqb_eq in E. subst k'.
      apply str_eqb_neq in Hne. now rewrite Hne.
    + destruct (str_eqb k0 k'); [reflexivity|exact IH].
Qed.

(** C10. The frontmatter extractor returns exactly the mapping built from
    the lines strictly between the first and the second sentinel line:
    each matching line stores group 1 -> group 2 in order (a later store
    of a key replaces the earlier value); lines before the first sentinel,
    lines that do not match and lines at or after the second sentinel
    contribute nothing; without a sentinel, and for a file that cannot be
    read, the mapping is empty. *)
Theorem parse_frontmatter_semantics (U : UnicodeData)
  (lines pre block rest : list str) (s1 s2 : str) (x : option node) :
  parse_lines U false [] lines = frontmatter_spec U lines
  /\ (existsb is_sentinel pre = false ->
      existsb is_sentinel block = false ->
      is_sentinel s1 = true -> is_sentinel s2 = true ->
      parse_lines U false [] (pre ++ s1 :: block ++ s2 :: rest)
      = fold_left (store_line U) block [])
  /\ (existsb is_sentinel lines = false -> parse_lines U false [] lines = [])
  /\ (read_text x = None -> parse_frontmatter U x = [])
  /\ (forall text, read_text x = Some text ->
      parse_frontmatter U x = frontmatter_spec U (readlines text))
  /\ (forall fm k v line,
      match_key_value U (rstrip_nl line) = Some (k, v) ->
      dict_find k (store_line U fm line) = Some v)
  /\ (forall fm line,
      match_key_value U (rstrip_nl line) = None -> store_line U fm line = fm).
Proof.
  repeat split.
  - apply parse_lines_outside.
  - intros Hpre Hblock H1 H2.
    now rewrite parse_lines_outside, block_of_delimited.
  - intros Hno. now rewrite parse_lines_outside, no_sentinel_block.
  - intros Hx. unfold parse_frontmatter. now rewrite Hx.
  - intros text Hx. unfold parse_frontmatter. rewrite Hx. simpl.
    apply parse_lines_outside.
  - intros fm k v line Hm. unfold store_line. rewrite Hm.
    apply dict_find_set_eq.
  - intros fm line Hm. unfold store_line. now rewrite Hm.
Qed.

Lemma parse_frontmatter_semantics_witness :
  parse_lines ascii_only false [] sample_lines
  = [(lit "aliases", lit "[B, b]")]
  /\ parse_lines ascii_only false [] [lit "aliases: [A, a]" ++ nl] = []
  /\ parse_frontmatter ascii_only (Some (File None)) = [].
Proof.
  pose proof (parse_frontmatter_semantics ascii_only
                [lit "aliases: [A, a]" ++ nl]
                [lit "title: outside" ++ nl]
                [lit "aliases: [A, a]" ++ nl; lit "not a field" ++ nl;
                 lit "aliases:   [B, b]" ++ nl]
                [lit "aliases: [C, c]" ++ nl]
                (lit "---" ++ nl) (lit "---" ++ nl) (Some (File None)))
    as (_ & Hblock & Hnone & Hunreadable & _).
  split; [|split].
  - exact (Hblock eq_refl eq_refl eq_refl eq_refl).
  - exact (Hnone eq_refl).
  - exact (Hunreadable eq_refl).
Defined.

(* ================================================================== *)
(** * Sanitization *)
(* ================================================================== *)

Section StripFacts.

Variable p : char -> bool.

Lemma drop_while_suffix (s : str) : exists t, s = t ++ drop_while p s.
Proof.
  induction s as [|c s [t IH]]; simpl.
  - now exists [].
  - destruct (p c).
    + exists (c :: t). simpl. now f_equal.
    + now exists [].
Qed.

Lemma drop_while_head (s s' : str) (c : char) :
  drop_while p s = c :: s' -> p c = false.
Proof.
  induction s as [|d s IH]; simpl; [discriminate|].
  destruct (p d) eqn:E; [exact IH|].
  intros H. now inversion H; subst.
Qed.

Lemma drop_while_idem (s : str) :
  drop_while p (drop_while p s) = drop_while p s.
Proof.
  destruct (drop_while p s) as [|c s'] eqn:E; [reflexivity|].
  apply drop_while_head in E. simpl. now rewrite E.
Qed.

Lemma rstrip_by_prefix (s : str) : exists t, s = rstrip_by p s ++ t.
Proof.
  unfold rstrip_by. destruct (drop_while_suffix (rev s)) as [t Ht].
  exists (rev t). rewrite <- rev_app_distr, <- Ht. now rewrite rev_involutive.
Qed.

Lemma in_drop_while (c : char) (s : str) : In c (drop_while p s) -> In c s.
Proof.
  destruct (drop_while_suffix s) as [t Ht]. intros H. rewrite Ht.
  apply in_or_app. now right.
Qed.

Lemma in_strip_by (c : char) (s : str) : In c (strip_by p s) -> In c s.
Proof.
  unfold strip_by. intros H. apply in_drop_while.
  destruct (rstrip_by_prefix (drop_while p s)) as [t Ht]. rewrite Ht.
  apply in_or_app. now left.
Qed.

Lemma strip_by_idem (s : str) : strip_by p (strip_by p s) = strip_by p s.
Proof.
  unfold strip_by. set (a := drop_while p s).
  assert (Ha : drop_while p a = a) by apply drop_while_idem.
  destruct (rstrip_by_prefix a) as [t Ht].
  destruct (rstrip_by p a) as [|c r] eqn:Er; [reflexivity|].
  assert (Hc : p c = false).
  { rewrite Ht in Ha. simpl in Ha. destruct (p c) eqn:E; [|reflexivity].
    exfalso. destruct (drop_while_suffix (r ++ t)) as [u Hu].
    rewrite Ha in Hu. apply (f_equal (@List.length char)) in Hu.
    repeat (rewrite length_app in Hu || simpl in Hu). lia. }
  simpl. rewrite Hc. rewrite <- Er. unfold rstrip_by.
  rewrite rev_involutive. now rewrite drop_while_idem.
Qed.

End StripFacts.

Lemma in_collapse_ws (c : char) (s : str) (b : bool) :
  In c (collapse_ws b s) -> c = 32%N \/ (In c s /\ is_space c = false).
Proof.
  revert b; induction s as [|d s IH]; intros b; simpl; [tauto|].
  destruct (is_space d) eqn:E.
  - destruct b; simpl.
    + intros H. destruct (IH _ H) as [|[? ?]]; auto.
    + intros [H|H]; [now left|]. destruct (IH _ H) as [|[? ?]]; auto.
  - simpl. intros [H|H].
    + subst. right. auto.
    + destruct (IH _ H) as [|[? ?]]; auto.
Qed.

Lemma collapse_ws_normal (s : str) (b : bool) :
  ws_normal b (collapse_ws b s) = true.
Proof.
  revert b; induction s as [|c s IH]; intros b; simpl; [reflexivity|].
  destruct (is_space c) eqn:E.
  - destruct b; [apply IH|]. simpl. apply IH.
  - simpl. rewrite E. apply IH.
Qed.

Lemma collapse_ws_fixed (s : str) (b : bool) :
  ws_normal b s = true -> collapse_ws b s = s.
Proof.
  revert b; induction s as [|c s IH]; intros b; simpl; [reflexivity|].
  destruct (is_space c) eqn:E.
  - intros H. apply andb_true_iff in H as [H Hs].
    apply andb_true_iff in H as [Hc Hb].
    apply N.eqb_eq in Hc. destruct b; [discriminate|].
    subst c. f_equal. now apply IH.
  - intros H. f_equal. now apply IH.
Qed.

Lemma ws_normal_weaken (s : str) (b : bool) :
  ws_normal b s = true -> ws_normal false s = true.
Proof.
  destruct s as [|c s]; simpl; [reflexivity|].
  destruct (is_space c); [|tauto].
  intros H. apply andb_true_iff in H as [H Hs].
  apply andb_true_iff in H as [Hc _]. now rewrite Hc, Hs.
Qed.

Lemma ws_normal_suffix (t s : str) (b : bool) :
  ws_normal b (t ++ s) = true -> ws_normal false s = true.
Proof.
  revert b; induction t as [|c t IH]; intros b; simpl.
  - apply ws_normal_weaken.
  - destruct (is_space c).
    + intros H. apply andb_true_iff in H as [_ H]. now apply IH in H.
    + apply IH.
Qed.

Lemma ws_normal_prefix (s t : str) (b : bool) :
  ws_normal b (s ++ t) = true -> ws_normal b s = true.
Proof.
  revert b; induction s as [|c s IH]; intros b; simpl; [reflexivity|].
  destruct (is_space c).
  - intros H. apply andb_true_iff in H as [H Hs]. rewrite H. simpl.
    now apply IH in Hs.
  - apply IH.
Qed.

Lemma ws_normal_strip (s : str) :
  ws_normal false s = true -> ws_normal false (strip s) = true.
Proof.
  intros H. unfold strip, strip_by.
  destruct (drop_while_suffix is_space s) as [t Ht].
  rewrite Ht in H. apply ws_normal_suffix in H.
  destruct (rstrip_by_prefix is_space (drop_while is_space s)) as [u Hu].
  rewrite Hu in H. now apply ws_normal_prefix in H.
Qed.

Lemma forbidden_chars_spec (c : char) :
  mem_char c forbidden_chars = true
  <-> In c (lit "/\:*?<>|#^[].'" ++ [34%N]).
Proof.
  unfold mem_char. rewrite existsb_exists. split.
  - intros [x [Hin Hx]]. apply N.eqb_eq in Hx. subst x.
    simpl in Hin. simpl. intuition.
  - intros Hin. exists c. split; [|apply N.eqb_refl].
    simpl in Hin. simpl. intuition.
Qed.

(** The result of [sanitize] holds none of the characters of the class
    of its pattern. *)
Lemma sanitize_no_forbidden (s : str) (c : char) :
  In c (sanitize s) -> mem_char c forbidden_chars = false.
Proof.
  unfold sanitize, strip. intros H. apply in_strip_by in H.
  apply in_collapse_ws in H as [->|[H _]]; [reflexivity|].
  apply in_map_iff in H as [d [Hd _]].
  destruct (mem_char d forbidden_chars) eqn:E; subst; [reflexivity|exact E].
Qed.

(** [sanitize] is idempotent. *)
Lemma sanitize_idempotent (s : str) : sanitize (sanitize s) = sanitize s.
Proof.
  assert (Hmap :
    map (fun c => if mem_char c forbidden_chars then 95%N else c) (sanitize s)
    = sanitize s).
  { rewrite <- (map_id (sanitize s)) at 2. apply map_ext_in.
    intros c Hc. now rewrite (sanitize_no_forbidden _ _ Hc). }
  unfold sanitize at 1. rewrite Hmap.
  assert (Hn : ws_normal false (sanitize s) = true).
  { unfold sanitize. apply ws_normal_strip, collapse_ws_normal. }
  rewrite (collapse_ws_fixed _ _ Hn).
  unfold sanitize, strip. apply strip_by_idem.
Qed.

(** C7, at the failing input: the class of the pattern of [sanitize]
    lists the straight quotes only, so curly quotes pass through. *)
Theorem sanitize_keeps_curly_quotes :
  sanitize curly_quoted = curly_quoted
  /\ mem_char 8220%N forbidden_chars = false
  /\ mem_char 8221%N forbidden_chars = false.
Proof. repeat split. Qed.

(* ================================================================== *)
(** * Substrings and replacement *)
(* ================================================================== *)

Lemma starts_with_app (p s : str) : starts_with p (p ++ s) = true.
Proof.
  induction p as [|x p IH]; simpl; [reflexivity|].
  now rewrite N.eqb_refl, IH.
Qed.

Lemma starts_with_split (p s : str) :
  starts_with p s = true -> exists t, s = p ++ t.
Proof.
  revert s; induction p as [|x p IH]; intros s; simpl.
  - intros _. now exists s.
  - destruct s as [|y s]; [discriminate|].
    intros H. apply andb_true_iff in H as [Hx Hp].
    apply N.eqb_eq in Hx. subst y.
    destruct (IH _ Hp) as [t ->]. now exists t.
Qed.

Lemma starts_with_contains (sub s : str) :
  starts_with sub s = true -> contains sub s = true.
Proof. intros H. destruct s; simpl; now rewrite H. Qed.

Lemma contains_split (sub s : str) :
  contains sub s = true <-> exists pre post, s = pre ++ sub ++ post.
Proof.
  split.
  - induction s as [|c s IH]; simpl.
    + rewrite orb_false_r. intros H.
      destruct (starts_with_split _ _ H) as [t Ht]. now exists [], t.
    + intros H. apply orb_true_iff in H as [H|H].
      * destruct (starts_with_split _ _ H) as [t Ht]. now exists [], t.
      * destruct (IH H) as (pre & post & ->). now exists (c :: pre), post.
  - intros (pre & post & ->).
    induction pre as [|c pre IH]; simpl.
    + apply starts_with_contains, starts_with_app.
    + rewrite IH. apply orb_true_r.
Qed.

Lemma contains_trans (a b s : str) :
  contains a b = true -> contains b s = true -> contains a s = true.
Proof.
  intros Hab Hbs.
  apply contains_split in Hab as (p1 & q1 & ->).
  apply contains_split in Hbs as (p2 & q2 & ->).
  apply contains_split. exists (p2 ++ p1), (q1 ++ q2).
  now rewrite <- !app_assoc.
Qed.

Lemma replace_go_absent (old new s : str) :
  contains old s = false -> replace_go old new 0 s = s.
Proof.
  induction s as [|c s IH]; simpl; [reflexivity|].
  intros H. apply orb_false_iff in H as [Hs Hc].
  rewrite Hs. f_equal. now apply IH.
Qed.

Lemma str_replace_absent (old new s : str) :
  contains old s = false -> str_replace old new s = s.
Proof.
  destruct old as [|c old].
  - destruct s; discriminate.
  - apply replace_go_absent.
Qed.

(** With a single mapping, the conversation pass replaces the old path
    and then the legacy marker. *)
Lemma conversation_text_single (o n c : str) :
  fst (conversation_text [(o, n)] c)
  = if contains (lit "artifacts/") c
    then str_replace legacy_marker embed_marker (str_replace o n c)
    else c.
Proof.
  unfold conversation_text.
  destruct (contains (lit "artifacts/") c); cbn [negb fst]; [|reflexivity].
  cbn [apply_links_count].
  destruct (contains o c) eqn:Eo.
  - destruct (contains legacy_marker (str_replace o n c)) eqn:Em; cbn [fst].
    + reflexivity.
    + now rewrite (str_replace_absent _ embed_marker _ Em).
  - rewrite (str_replace_absent _ n _ Eo).
    destruct (contains legacy_marker c) eqn:Em; cbn [fst].
    + reflexivity.
    + now rewrite (str_replace_absent _ embed_marker _ Em).
Qed.

Lemma artifact_text_single (o n c : str) :
  artifact_text [(o, n)] c
  = if contains (lit "artifacts/") c then str_replace o n c else c.
Proof.
  unfold artifact_text.
  destruct (contains (lit "artifacts/") c); cbn [negb]; [|reflexivity].
  cbn [apply_links].
  destruct (contains o c) eqn:Eo; [reflexivity|].
  now rewrite (str_replace_absent _ n _ Eo).
Qed.

(* ================================================================== *)
(** * Directory listings *)
(* ================================================================== *)

Lemma lookup_put_eq (name : str) (x : node) (es : dirlist) :
  lookup name (put name x es) = Some x.
Proof.
  induction es as [|[n y] es IH]; simpl.
  - now rewrite str_eqb_refl.
  - destruct (str_eqb name n) eqn:E; simpl; rewrite E; [reflexivity|exact IH].
Qed.

Lemma lookup_put_neq (name other : str) (x : node) (es : dirlist) :
  other <> name -> lookup other (put name x es) = lookup other es.
Proof.
  intros Hne. apply str_eqb_neq in Hne.
  induction es as [|[n y] es IH]; simpl.
  - now rewrite Hne.
  - destruct (str_eqb name n) eqn:E; simpl.
    + apply str_eqb_eq in E. subst n. now rewrite Hne.
    + destruct (str_eqb other n); [reflexivity|exact IH].
Qed.

Lemma put_same (name : str) (x : node) (es : dirlist) :
  lookup name es = Some x -> put name x es = es.
Proof.
  induction es as [|[n y] es IH]; simpl; [discriminate|].
  destruct (str_eqb name n) eqn:E.
  - intros H. now inversion H.
  - intros H. f_equal. now apply IH.
Qed.

Lemma lookup_remove_eq (name : str) (es : dirlist) :
  lookup name (remove name es) = None.
Proof.
  induction es as [|[n y] es IH]; simpl; [reflexivity|].
  destruct (str_eqb name n) eqn:E; simpl; [exact IH|]. now rewrite E.
Qed.

Lemma lookup_remove_neq (name other : str) (es : dirlist) :
  other <> name -> lookup other (remove name es) = lookup other es.
Proof.
  intros Hne. apply str_eqb_neq in Hne.
  induction es as [|[n y] es IH]; simpl; [reflexivity|].
  destruct (str_eqb name n) eqn:E; simpl.
  - apply str_eqb_eq in E. subst n. now rewrite Hne.
  - destruct (str_eqb other n); [reflexivity|exact IH].
Qed.

Lemma lookup_app (name : str) (es fs : dirlist) :
  lookup name (es ++ fs)
  = match lookup name es with Some x => Some x | None => lookup name fs end.
Proof.
  induction es as [|[n y] es IH]; simpl; [reflexivity|].
  destruct (str_eqb name n); [reflexivity|exact IH].
Qed.

Lemma lookup_in_names (name : str) (es : dirlist) :
  lookup name es <> None <-> In name (names es).
Proof.
  induction es as [|[n y] es IH]; simpl; [tauto|].
  destruct (str_eqb name n) eqn:E.
  - apply str_eqb_eq in E. subst. split; [auto|discriminate].
  - apply str_eqb_neq in E. rewrite IH. split; [auto|].
    intros [H|H]; [congruence|exact H].
Qed.

Lemma remove_absent (name : str) (es : dirlist) :
  lookup name es = None -> remove name es = es.
Proof.
  induction es as [|[n y] es IH]; simpl; [reflexivity|].
  destruct (str_eqb name n); [discriminate|].
  intros H. f_equal. now apply IH.
Qed.

Lemma write_at_same (path : list str) (text : str) (x : node) :
  read_at path x = Some text -> write_at path text x = x.
Proof.
  revert x; induction path as [|name rest IH]; intros x; simpl.
  - destruct x as [data|es]; simpl; [|discriminate]. now intros ->.
  - destruct x as [data|es]; [discriminate|].
    destruct (lookup name es) as [y|] eqn:E; [|discriminate].
    intros H. rewrite (IH _ H). now rewrite (put_same _ _ _ E).
Qed.

(* ================================================================== *)
(** * What the link fixer leaves in the vault *)
(* ================================================================== *)

Lemma read_text_lookup (name : str) (es : dirlist) (c : str) :
  read_text (lookup name es) = Some c ->
  lookup name es = Some (File (Some c)).
Proof.
  destruct (lookup name es) as [[data|sub]|]; simpl; try discriminate.
  now intros ->.
Qed.

(** The file a step of the conversation pass leaves, whatever it logs. *)
Lemma fix_conversation_file_tree (lm : dict str) (root : list str)
  (fname : str) (conv : node) (lg : flog) :
  fst (fix_conversation_file false lm root fname (conv, lg))
  = if ends_with (lit ".md") fname
    then match read_at (root ++ [fname]) conv with
         | Some c => write_at (root ++ [fname]) (fst (conversation_text lm c)) conv
         | None => conv
         end
    else conv.
Proof.
  unfold fix_conversation_file.
  destruct (ends_with (lit ".md") fname); cbn [negb]; [|reflexivity].
  destruct (read_at (root ++ [fname]) conv) as [c|] eqn:Er; [|reflexivity].
  destruct (conversation_text lm c) as [nc ch]. cbn [fst].
  destruct (str_eqb nc c) eqn:E; cbn [fst]; [|reflexivity].
  apply str_eqb_eq in E. subst nc. symmetry. now apply write_at_same.
Qed.

(** The listing a step of the artifact pass leaves, whatever it logs. *)
Lemma fix_artifact_file_tree (lm : dict str) (folder_name fname : str)
  (fes : dirlist) (lg : flog) :
  fst (fix_artifact_file false lm folder_name (fes, lg) fname)
  = if ends_with (lit ".md") fname
    then match read_text (lookup fname fes) with
         | Some c => put fname (File (Some (artifact_text lm c))) fes
         | None => fes
         end
    else fes.
Proof.
  unfold fix_artifact_file.
  destruct (ends_with (lit ".md") fname); cbn [negb]; [|reflexivity].
  destruct (read_text (lookup fname fes)) as [c|] eqn:Er; [|reflexivity].
  destruct (str_eqb (artifact_text lm c) c) eqn:E; cbn [fst]; [|reflexivity].
  apply str_eqb_eq in E. rewrite E. symmetry.
  apply put_same. now apply read_text_lookup.
Qed.

Lemma fix_conversations_one_file (lm : dict str) (fname c : str) (lg : flog) :
  ends_with (lit ".md") fname = true ->
  fst (fix_conversations false lm (Dir [(fname, File (Some c))]) lg)
  = Dir [(fname, File (Some (fst (conversation_text lm c))))].
Proof.
  intros Hmd. unfold fix_conversations.
  cbn [os_walk walk_files flat_map snd fst app fold_left].
  rewrite fix_conversation_file_tree, Hmd.
  cbn [app read_at lookup]. rewrite str_eqb_refl. cbn [read_text].
  cbn [write_at lookup]. rewrite str_eqb_refl.
  cbn [write_at put]. now rewrite str_eqb_refl.
Qed.

Lemma fix_artifacts_one_file (lm : dict str) (folder fname c : str)
  (lg : flog) :
  ends_with (lit ".md") fname = true ->
  fst (fix_artifacts false lm [(folder, Dir [(fname, File (Some c))])] lg)
  = [(folder, Dir [(fname, File (Some (artifact_text lm c)))])].
Proof.
  intros Hmd. unfold fix_artifacts.
  cbn [names map fst sorted fold_right insert_sorted fold_left].
  unfold fix_artifact_folder. cbn [lookup]. rewrite str_eqb_refl.
  cbn [names map fst fold_left].
  pose proof (fix_artifact_file_tree lm folder fname
                [(fname, File (Some c))] lg) as Hstep.
  match goal with
  | |- context [let '(_, _) := ?t in _] =>
      change (fix_artifact_file false lm folder
                ([(fname, File (Some c))], lg) fname) with t in Hstep;
      destruct t as [fes' lg']
  end.
  cbn [fst] in *. subst fes'. rewrite Hmd.
  cbn [lookup]. rewrite str_eqb_refl. cbn [read_text put].
  now rewrite !str_eqb_refl.
Qed.

(** A run of the link fixer on a vault whose artifacts directory exists
    ends normally; the vault it leaves is what the two passes leave. *)
Lemma fix_main_result (U : UnicodeData) (a b : str) (rest : list str)
  (v : vault) (art : dirlist) :
  artifacts v = Some (Dir art) ->
  exists lg lg',
    run_end (fix_main U (a :: b :: rest) v) = Finished
    /\ run_vault (fix_main U (a :: b :: rest) v)
       = {| artifacts :=
              Some (Dir (fst (fix_artifacts (dry_run_flag (a :: b :: rest))
                                (build_link_map U art) art lg')));
            conversations :=
              option_map
                (fun c => fst (fix_conversations
                                 (dry_run_flag (a :: b :: rest))
                                 (build_link_map U art) c lg))
                (conversations v) |}.
Proof.
  intros Ha. unfold fix_main. rewrite Ha.
  set (lm := build_link_map U art).
  set (dry := dry_run_flag (a :: b :: rest)).
  set (lg := {| updated_files := 0; updated_links := 0;
                fprinted := [BuildingMap;
                             FoundMappings (N.of_nat (List.length lm))] |}).
  exists lg.
  destruct (conversations v) as [conv|]; cbn [option_map].
  - destruct (fix_conversations dry lm conv lg) as [c l] eqn:Ec.
    exists l. destruct (fix_artifacts dry lm art l) as [a' l2] eqn:Ea.
    now split.
  - exists lg. destruct (fix_artifacts dry lm art lg) as [a' l2] eqn:Ea.
    now split.
Qed.

(** C1 (amended). In the scenario of the specification the Migrator
    renames the file to [2024-01-02 - My Title v2.md] and the folder to
    [2024-01-01 - _My Conversation_]: the title of the conversation is its
    raw [aliases] value, whose brackets [sanitize] turns into underscores.
    The link fixer then replaces every occurrence of the old link in the
    conversation file by the link under that folder name (and the
    legacy marker by the embed marker). *)
Theorem end_to_end_scenario (U : UnicodeData) (draft_body record_body : str) :
  let v0 := scenario_vault draft_body record_body in
  let r1 := migrate_main U scenario_argv v0 in
  let r2 := fix_main U scenario_argv (run_vault r1) in
  let draft := draft_frontmatter ++ draft_body in
  let record := record_frontmatter ++ record_body in
  run_end r1 = Finished
  /\ run_vault r1
     = {| artifacts :=
            Some (Dir [(actual_folder, Dir [(new_file, File (Some draft))])]);
          conversations := conversations v0 |}
  /\ run_end r2 = Finished
  /\ conversations (run_vault r2)
     = Some (Dir [(lit "My Conversation.md",
                   File (Some (if contains (lit "artifacts/") record
                               then str_replace legacy_marker embed_marker
                                      (str_replace old_link actual_link record)
                               else record)))])
  /\ implb (contains old_link record) (contains (lit "artifacts/") record)
     = true
  /\ artifacts (run_vault r2)
     = Some (Dir [(actual_folder,
                   Dir [(new_file,
                         File (Some (if contains (lit "artifacts/") draft
                                     then str_replace old_link actual_link draft
                                     else draft)))])]).
Proof.
  intros v0 r1 r2 draft record.
  assert (Hend : run_end r1 = Finished).
  { destruct U as [al de [|[p|p|]]]; vm_compute; reflexivity. }
  assert (Hv : run_vault r1
               = {| artifacts :=
                      Some (Dir [(actual_folder,
                                  Dir [(new_file, File (Some draft))])]);
                    conversations := conversations v0 |}).
  { destruct U as [al de [|[p|p|]]]; vm_compute; reflexivity. }
  assert (Hlm : build_link_map U
                  [(actual_folder, Dir [(new_file, File (Some draft))])]
                = [(old_link, actual_link)]).
  { vm_compute. reflexivity. }
  split; [exact Hend|]. split; [exact Hv|].
  subst r2. rewrite Hv.
  destruct (fix_main_result U (lit "tool.py") (lit "/vault") []
              {| artifacts :=
                   Some (Dir [(actual_folder,
                               Dir [(new_file, File (Some draft))])]);
                 conversations := conversations v0 |}
              [(actual_folder, Dir [(new_file, File (Some draft))])] eq_refl)
    as (lg & lg' & Hfin & Hres).
  unfold scenario_argv. rewrite Hfin, Hres. cbn [artifacts conversations].
  rewrite Hlm.
  change (dry_run_flag [lit "tool.py"; lit "/vault"]) with false.
  split; [reflexivity|]. split; [|split].
  - cbn [v0 scenario_vault conversations option_map].
    rewrite fix_conversations_one_file by reflexivity.
    now rewrite conversation_text_single.
  - destruct (contains old_link record) eqn:Eo; [|reflexivity].
    cbn [implb].
    apply (contains_trans (lit "artifacts/") old_link record); [|exact Eo].
    reflexivity.
  - rewrite fix_artifacts_one_file by reflexivity.
    now rewrite artifact_text_single.
Qed.

(** The specification's expectation for the scenario fails: no folder
    named [2024-01-01 - My Conversation] comes out of the migration. *)
Lemma scenario_as_specified_fails :
  ~ scenario_as_specified ascii_only [] record_body0.
Proof.
  unfold scenario_as_specified. intros [H _].
  vm_compute in H. discriminate H.
Qed.

(* ================================================================== *)
(** * File renames inside one folder *)
(* ================================================================== *)

(** C4. The loop over the files of a folder renames without looking at
    what the new name already names: when two [.md] files of a folder
    get the same new name, the rename of the second replaces the file
    the first rename produced, and one file of that name is left. *)
Theorem rename_collision_overwrites (U : UnicodeData) (entry a b n : str)
  (ca cb : str) (lg : log) :
  str_leb a b = true ->
  ends_with (lit ".md") a = true ->
  ends_with (lit ".md") b = true ->
  art_new_name U (parse_frontmatter_text U (Some ca)) = Some n ->
  art_new_name U (parse_frontmatter_text U (Some cb)) = Some n ->
  a <> b -> a <> n -> b <> n ->
  let fes := [(a, File (Some ca)); (b, File (Some cb))] in
  os_rename a n fes = inr [(b, File (Some cb)); (n, File (Some ca))]
  /\ os_rename b n [(b, File (Some cb)); (n, File (Some ca))]
     = inr [(n, File (Some cb))]
  /\ for_each (rename_step U false entry) (sorted (names fes)) (fes, lg)
     = Ok ([(n, File (Some cb))], count_renamed (count_renamed lg)).
Proof.
  intros Hle Ha Hb Hna Hnb Hab Han Hbn fes.
  assert (Eab : str_eqb a b = false) by now apply str_eqb_neq.
  assert (Eba : str_eqb b a = false) by now rewrite str_eqb_sym.
  assert (Ean : str_eqb a n = false) by now apply str_eqb_neq.
  assert (Ena : str_eqb n a = false) by now rewrite str_eqb_sym.
  assert (Ebn : str_eqb b n = false) by now apply str_eqb_neq.
  assert (Enb : str_eqb n b = false) by now rewrite str_eqb_sym.
  assert (R1 : os_rename a n fes = inr [(b, File (Some cb)); (n, File (Some ca))]).
  { unfold os_rename, fes.
    repeat (progress (cbn [lookup remove put];
                      rewrite ?str_eqb_refl, ?Eab, ?Eba, ?Ean, ?Ena, ?Ebn, ?Enb)).
    reflexivity. }
  assert (R2 : os_rename b n [(b, File (Some cb)); (n, File (Some ca))]
               = inr [(n, File (Some cb))]).
  { unfold os_rename.
    repeat (progress (cbn [lookup remove put];
                      rewrite ?str_eqb_refl, ?Eab, ?Eba, ?Ean, ?Ena, ?Ebn, ?Enb)).
    reflexivity. }
  split; [exact R1|]. split; [exact R2|].
  unfold fes at 1. cbn [names map fst sorted fold_right insert_sorted].
  rewrite Hle. cbn [for_each].
  unfold rename_step at 1. rewrite Ha. cbn [negb].
  unfold parse_frontmatter. unfold fes at 1. cbn [lookup].
  rewrite str_eqb_refl. cbn [read_text]. rewrite Hna, Ean, R1.
  unfold rename_step at 1. rewrite Hb. cbn [negb].
  unfold parse_frontmatter. cbn [lookup].
  rewrite str_eqb_refl. cbn [read_text]. rewrite Hnb, Ebn, R2.
  reflexivity.
Qed.

Lemma rename_collision_overwrites_witness :
  for_each (rename_step ascii_only false uuid1)
    (sorted (names twin_folder)) (twin_folder, log0)
  = Ok ([(lit "2024-05-06 - Plan.md", File (Some (twin_text (lit "second"))))],
        count_renamed (count_renamed log0)).
Proof.
  apply (rename_collision_overwrites ascii_only uuid1
           (lit "a.md") (lit "b.md") (lit "2024-05-06 - Plan.md")
           (twin_text (lit "first")) (twin_text (lit "second")) log0);
    try reflexivity; discriminate.
Defined.

(* ================================================================== *)
(** * The link index *)
(* ================================================================== *)

Lemma in_insert_sorted (x y : str) (l : list str) :
  In y (insert_sorted x l) <-> y = x \/ In y l.
Proof.
  induction l as [|z l IH]; simpl.
  - intuition.
  - destruct (str_leb x z); simpl.
    + intuition.
    + rewrite IH. intuition.
Qed.

Lemma in_sorted (y : str) (l : list str) : In y (sorted l) <-> In y l.
Proof.
  induction l as [|x l IH]; simpl; [tauto|].
  rewrite in_insert_sorted, IH. intuition.
Qed.

Lemma in_dict_set (V : Type) (k k0 : str) (v v0 : V) (d : dict V) :
  In (k0, v0) (dict_set k v d) -> In (k0, v0) d \/ (k0 = k /\ v0 = v).
Proof.
  induction d as [|[k' v'] d IH]; simpl.
  - intros [H|[]]. inversion H. now right.
  - destruct (str_eqb k k') eqn:E; simpl.
    + apply str_eqb_eq in E. subst k'.
      intros [H|H]; [inversion H; now right|left; now right].
    + intros [H|H]; [left; now left|].
      destruct (IH H) as [?|?]; [left; now right|now right].
Qed.

Lemma is_empty_false (s : str) : is_empty s = false <-> s <> [].
Proof. destruct s; simpl; split; congruence. Qed.

Section LinkIndex.

Context (U : UnicodeData).

Lemma index_artifact_sound (folder_name : str) (fes : dirlist) (fname : str)
  (lm : dict str) (o n : str) :
  In (o, n) (index_artifact U folder_name fes fname lm) ->
  In (o, n) lm \/ gives_link U folder_name fes fname o n.
Proof.
  unfold index_artifact, gives_link.
  destruct (ends_with (lit ".md") fname); cbn [negb]; [|now left].
  set (fm := parse_frontmatter U (lookup fname fes)).
  destruct (is_empty (dict_get (lit "conversation_id") [] fm)) eqn:Ec;
    cbn [orb]; [now left|].
  destruct (is_empty (dict_get (lit "aliases") [] fm)) eqn:Ea; [now left|].
  destruct (is_empty (extract_second_alias (dict_get (lit "aliases") [] fm)))
    eqn:Es; [now left|].
  match goal with
  | |- context [str_eqb ?a ?b] => destruct (str_eqb a b) eqn:El
  end; [now left|].
  intros H. apply in_dict_set in H as [H|[-> ->]]; [now left|right].
  apply is_empty_false in Ec, Ea, Es. apply str_eqb_neq in El.
  repeat split; assumption.
Qed.

Lemma index_artifact_keeps (folder_name : str) (fes : dirlist) (fname : str)
  (lm : dict str) (k : str) :
  dict_find k lm <> None ->
  dict_find k (index_artifact U folder_name fes fname lm) <> None.
Proof.
  intros Hk. unfold index_artifact.
  repeat match goal with
         | |- context [if ?c then _ else _] => destruct c; try exact Hk
         end.
  match goal with
  | |- dict_find _ (dict_set ?k' _ _) <> _ =>
      destruct (str_eqb k k') eqn:E
  end.
  - apply str_eqb_eq in E. subst k. rewrite dict_find_set_eq. discriminate.
  - apply str_eqb_neq in E. now rewrite dict_find_set_neq.
Qed.

Lemma index_artifact_complete (folder_name : str) (fes : dirlist)
  (fname : str) (lm : dict str) (o n : str) :
  gives_link U folder_name fes fname o n ->
  dict_find o (index_artifact U folder_name fes fname lm) <> None.
Proof.
  unfold gives_link, index_artifact.
  intros (Hmd & Hc & Ha & Hs & -> & -> & Hne).
  rewrite Hmd. cbn [negb].
  apply is_empty_false in Hc, Ha, Hs. rewrite Hc, Ha, Hs. cbn [orb].
  apply str_eqb_neq in Hne. rewrite Hne.
  rewrite dict_find_set_eq. discriminate.
Qed.

Lemma index_files_sound (folder_name : str) (fes : dirlist) (l : list str)
  (lm : dict str) (o n : str) :
  In (o, n)
    (fold_left (fun lm fname => index_artifact U folder_name fes fname lm)
       l lm) ->
  In (o, n) lm
  \/ exists fname, In fname l /\ gives_link U folder_name fes fname o n.
Proof.
  revert lm; induction l as [|f l IH]; intros lm; simpl; [now left|].
  intros H. apply IH in H as [H|(fname & Hin & Hg)].
  - apply index_artifact_sound in H as [H|H]; [now left|].
    right. exists f. split; [now left|exact H].
  - right. exists fname. split; [now right|exact Hg].
Qed.

Lemma index_files_keeps (folder_name : str) (fes : dirlist) (l : list str)
  (lm : dict str) (k : str) :
  dict_find k lm <> None ->
  dict_find k
    (fold_left (fun lm fname => index_artifact U folder_name fes fname lm)
       l lm) <> None.
Proof.
  revert lm; induction l as [|f l IH]; intros lm; simpl; [tauto|].
  intros H. apply IH. now apply index_artifact_keeps.
Qed.

Lemma index_files_complete (folder_name : str) (fes : dirlist)
  (l : list str) (lm : dict str) (fname o n : str) :
  In fname l -> gives_link U folder_name fes fname o n ->
  dict_find o
    (fold_left (fun lm fname => index_artifact U folder_name fes fname lm)
       l lm) <> None.
Proof.
  revert lm; induction l as [|f l IH]; intros lm; simpl; [tauto|].
  intros [->|Hin] Hg.
  - apply index_files_keeps. now apply index_artifact_complete with (n := n).
  - now apply IH.
Qed.

Lemma index_folders_sound (art : dirlist) (l : list str) (lm : dict str)
  (o n : str) :
  In (o, n)
    (fold_left (fun lm folder_name => index_folder U art folder_name lm) l lm) ->
  In (o, n) lm
  \/ exists folder_name fes fname,
       In folder_name l /\ lookup folder_name art = Some (Dir fes)
       /\ In fname (names fes) /\ gives_link U folder_name fes fname o n.
Proof.
  revert lm; induction l as [|d l IH]; intros lm; simpl; [now left|].
  intros H. apply IH in H as [H|(fn & fes & fname & Hin & Hl & Hf & Hg)].
  - unfold index_folder in H.
    destruct (lookup d art) as [[data|fes]|] eqn:El; try (now left).
    apply index_files_sound in H as [H|(fname & Hin & Hg)]; [now left|].
    right. exists d, fes, fname. split; [now left|]. auto.
  - right. exists fn, fes, fname. split; [now right|]. auto.
Qed.

Lemma index_folders_keeps (art : dirlist) (l : list str) (lm : dict str)
  (k : str) :
  dict_find k lm <> None ->
  dict_find k
    (fold_left (fun lm folder_name => index_folder U art folder_name lm) l lm)
  <> None.
Proof.
  revert lm; induction l as [|d l IH]; intros lm; simpl; [tauto|].
  intros H. apply IH. unfold index_folder.
  destruct (lookup d art) as [[data|fes]|]; try exact H.
  now apply index_files_keeps.
Qed.

Lemma index_folders_complete (art : dirlist) (l : list str) (lm : dict str)
  (folder_name : str) (fes : dirlist) (fname o n : str) :
  In folder_name l -> lookup folder_name art = Some (Dir fes) ->
  In fname (names fes) -> gives_link U folder_name fes fname o n ->
  dict_find o
    (fold_left (fun lm folder_name => index_folder U art folder_name lm) l lm)
  <> None.
Proof.
  revert lm; induction l as [|d l IH]; intros lm; simpl; [tauto|].
  intros [->|Hin] Hl Hf Hg.
  - apply index_folders_keeps. unfold index_folder. rewrite Hl.
    now apply index_files_complete with (fname := fname) (n := n).
  - now apply IH.
Qed.

End LinkIndex.

(** X4. Pass 1 of fix-artifact-links visits every directory
    directly under the artifacts directory, whatever its name, not only
    the dated ones; an entry [old -> new] is in the index only when some
    [.md] file of such a directory has a [conversation_id], an [aliases]
    value with a second alias, and [old] differs from [new]; and every
    such file has its old link as a key of the index. *)
Theorem link_index_scope (U : UnicodeData) (art : dirlist)
  (old_link new_link : str) :
  (In (old_link, new_link) (build_link_map U art) ->
   link_source U (fun _ => true) art old_link new_link)
  /\ (link_source U (fun _ => true) art old_link new_link ->
      dict_find old_link (build_link_map U art) <> None).
Proof.
  unfold build_link_map, link_source. split.
  - intros H. apply index_folders_sound in H as [[]|H].
    destruct H as (fn & fes & fname & Hin & Hl & Hf & Hg).
    exists fn, fes, fname. apply -> in_sorted in Hin.
    split; [exact Hin|]. split; [reflexivity|]. split; [exact Hl|].
    split; [exact Hf|exact Hg].
  - intros (fn & fes & fname & Hin & _ & Hl & Hf & Hg).
    apply index_folders_complete with (folder_name := fn) (fes := fes)
                                      (fname := fname) (n := new_link); auto.
    now apply in_sorted.
Qed.

Lemma link_index_scope_witness :
  link_source ascii_only (fun _ => true) unmigrated_artifacts
    (link_prefix ++ uuid1 ++ lit "/draft") (link_prefix ++ uuid1 ++ lit "/notes")
  /\ dict_find (link_prefix ++ uuid1 ++ lit "/draft")
       (build_link_map ascii_only unmigrated_artifacts) <> None.
Proof.
  destruct (link_index_scope ascii_only unmigrated_artifacts
              (link_prefix ++ uuid1 ++ lit "/draft")
              (link_prefix ++ uuid1 ++ lit "/notes")) as [Hsound Hcomplete].
  assert (Hs : link_source ascii_only (fun _ => true) unmigrated_artifacts
                 (link_prefix ++ uuid1 ++ lit "/draft")
                 (link_prefix ++ uuid1 ++ lit "/notes")).
  { apply Hsound. vm_compute. now left. }
  split; [exact Hs|exact (Hcomplete Hs)].
Defined.

(** The index of a directory that was never migrated has an entry, from
    a folder whose name is a conversation id, not a dated name. *)
Lemma index_scope_as_specified_fails :
  ~ index_scope_as_specified ascii_only unmigrated_artifacts.
Proof.
  intros H.
  destruct (H (link_prefix ++ uuid1 ++ lit "/draft")
              (link_prefix ++ uuid1 ++ lit "/notes"))
    as (fn & fes & fname & Hin & Hdated & _).
  - vm_compute. now left.
  - destruct Hin as [<-|[]]. vm_compute in Hdated. discriminate.
Qed.

(* ================================================================== *)
(** * The two substitution passes on one text *)
(* ================================================================== *)

Lemma apply_links_count_text (lm : dict str) (content x : str) (n : Z) :
  fst (apply_links_count lm content x n) = apply_links lm x.
Proof.
  revert x n; induction lm as [|[o nw] lm IH]; intros x n; simpl;
    [reflexivity|].
  destruct (contains o x); apply IH.
Qed.

Section ReplaceAll.

Variables (m n0 : char) (rest new' : str).

Let old := m :: rest.
Let new := n0 :: new'.

Hypothesis first_old_not_in_new : mem_char m new = false.
Hypothesis first_new_not_in_rest : mem_char n0 rest = false.

Lemma mem_char_false_cons (c x : char) (s : str) :
  mem_char c (x :: s) = false -> c <> x /\ mem_char c s = false.
Proof.
  unfold mem_char. simpl. intros H. apply orb_false_iff in H as [H1 H2].
  split; [now apply N.eqb_neq|exact H2].
Qed.

(** A string without the first character of [new] that begins the
    output begins the input. *)
Lemma starts_with_output (p s : str) :
  mem_char n0 p = false ->
  starts_with p (replace_go old new 0 s) = true -> starts_with p s = true.
Proof.
  revert s; induction p as [|x p IH]; intros s Hp; [reflexivity|].
  apply mem_char_false_cons in Hp as [Hx Hp].
  destruct s as [|c s]; [discriminate|].
  cbn [replace_go].
  destruct (starts_with old (c :: s)).
  - unfold new. cbn [app starts_with].
    intros H. apply andb_true_iff in H as [H _].
    apply N.eqb_eq in H. congruence.
  - cbn [starts_with]. intros H. apply andb_true_iff in H as [H1 H2].
    rewrite H1. cbn [andb]. now apply IH.
Qed.

Lemma contains_new_app (t u : str) :
  mem_char m t = false ->
  contains old u = false -> contains old (t ++ u) = false.
Proof.
  intros Ht Hu. induction t as [|x t IH]; [exact Hu|].
  apply mem_char_false_cons in Ht as [Hx Ht].
  cbn [app contains]. rewrite (IH Ht). unfold old. cbn [starts_with].
  apply N.eqb_neq in Hx. now rewrite Hx.
Qed.

Lemma replace_go_removes_all (s : str) (skip : nat) :
  contains old (replace_go old new skip s) = false.
Proof.
  revert skip; induction s as [|c s IH]; intros skip.
  - destruct skip; reflexivity.
  - destruct skip as [|k]; cbn [replace_go]; [|apply IH].
    destruct (starts_with old (c :: s)) eqn:E.
    + apply contains_new_app; [exact first_old_not_in_new|apply IH].
    + cbn [contains]. rewrite IH, orb_false_r.
      destruct (starts_with old (c :: replace_go old new 0 s)) eqn:E2;
        [|reflexivity].
      unfold old in E2, E. cbn [starts_with] in E2, E.
      apply andb_true_iff in E2 as [Hm Hr].
      rewrite Hm in E. cbn [andb] in E.
      apply starts_with_output in Hr; [congruence|].
      exact first_new_not_in_rest.
Qed.

End ReplaceAll.

(** No legacy marker is left by its replacement. *)
Lemma marker_replaced_everywhere (s : str) :
  contains legacy_marker (str_replace legacy_marker embed_marker s) = false.
Proof.
  apply (replace_go_removes_all 127912%N 33%N (lit " [[") (lit "[["));
    reflexivity.
Qed.

(** The artifact pass keeps the document of [marked_vault] as it is,
    legacy marker included. *)
Lemma artifact_markers_as_specified_fails :
  ~ artifact_markers_as_specified ascii_only marked_vault.
Proof.
  intros H.
  specialize (H [(actual_folder, Dir [(new_file, File (Some marked_artifact))])]
                actual_folder [(new_file, File (Some marked_artifact))]
                new_file marked_artifact).
  assert (Hc : contains legacy_marker marked_artifact = false).
  { apply H; vm_compute; reflexivity. }
  vm_compute in Hc. discriminate Hc.
Qed.

(** X5. In pass 2 a document without ["artifacts/"] is left as
    it is by both loops. For a document that holds it, the conversation
    loop applies the link mappings and then replaces every occurrence of
    the legacy marker by the embed marker, so that none is left; the
    artifact loop applies the link mappings only and does not touch the
    marker. Each loop writes that text back to the document it read. *)
Theorem marker_normalization (lm : dict str) (c : str)
  (root : list str) (fname folder_name : str) (conv : node) (fes : dirlist)
  (lg : flog) :
  (contains (lit "artifacts/") c = false ->
   fst (conversation_text lm c) = c /\ artifact_text lm c = c)
  /\ (contains (lit "artifacts/") c = true ->
      fst (conversation_text lm c)
      = str_replace legacy_marker embed_marker (apply_links lm c)
      /\ contains legacy_marker (fst (conversation_text lm c)) = false
      /\ artifact_text lm c = apply_links lm c)
  /\ (ends_with (lit ".md") fname = true ->
      read_at (root ++ [fname]) conv = Some c ->
      fst (fix_conversation_file false lm root fname (conv, lg))
      = write_at (root ++ [fname]) (fst (conversation_text lm c)) conv)
  /\ (ends_with (lit ".md") fname = true ->
      lookup fname fes = Some (File (Some c)) ->
      fst (fix_artifact_file false lm folder_name (fes, lg) fname)
      = put fname (File (Some (artifact_text lm c))) fes).
Proof.
  split; [|split; [|split]].
  - intros Hno. unfold conversation_text, artifact_text. now rewrite Hno.
  - intros Hyes.
    assert (Ht : fst (conversation_text lm c)
                 = str_replace legacy_marker embed_marker (apply_links lm c)).
    { unfold conversation_text. rewrite Hyes. cbn [negb].
      pose proof (apply_links_count_text lm c c 0) as Hl.
      destruct (apply_links_count lm c c 0) as [nc ch]. cbn [fst] in Hl.
      subst nc.
      destruct (contains legacy_marker (apply_links lm c)) eqn:Em; cbn [fst].
      - reflexivity.
      - symmetry. now apply str_replace_absent. }
    split; [exact Ht|]. split.
    + rewrite Ht. apply marker_replaced_everywhere.
    + unfold artifact_text. now rewrite Hyes.
  - intros Hmd Hr. now rewrite fix_conversation_file_tree, Hmd, Hr.
  - intros Hmd Hl. rewrite fix_artifact_file_tree, Hmd, Hl. reflexivity.
Qed.

Lemma marker_normalization_witness :
  fst (conversation_text [] marked_artifact)
  = str_replace legacy_marker embed_marker marked_artifact
  /\ artifact_text [] marked_artifact = marked_artifact
  /\ fst (conversation_text [] draft_frontmatter) = draft_frontmatter
  /\ fst (fix_conversation_file false [] [] (lit "c.md")
            (Dir [(lit "c.md", File (Some marked_artifact))],
             {| updated_files := 0; updated_links := 0; fprinted := [] |}))
     = Dir [(lit "c.md",
             File (Some (str_replace legacy_marker embed_marker
                           marked_artifact)))]
  /\ fst (fix_artifact_file false [] actual_folder
            ([(new_file, File (Some marked_artifact))],
             {| updated_files := 0; updated_links := 0; fprinted := [] |})
            new_file)
     = [(new_file, File (Some marked_artifact))].
Proof.
  destruct (marker_normalization [] marked_artifact [] (lit "c.md")
              actual_folder (Dir [(lit "c.md", File (Some marked_artifact))])
              [] {| updated_files := 0; updated_links := 0; fprinted := [] |})
    as (_ & Hyes & Hconv & _).
  destruct (marker_normalization [] marked_artifact [] new_file
              actual_folder (Dir [])
              [(new_file, File (Some marked_artifact))]
              {| updated_files := 0; updated_links := 0; fprinted := [] |})
    as (_ & _ & _ & Hart).
  destruct (marker_normalization [] draft_frontmatter [] (lit "c.md")
              actual_folder (Dir []) []
              {| updated_files := 0; updated_links := 0; fprinted := [] |})
    as (Hno & _).
  assert (Hc : contains (lit "artifacts/") marked_artifact = true)
    by (vm_compute; reflexivity).
  assert (Hn : contains (lit "artifacts/") draft_frontmatter = false)
    by (vm_compute; reflexivity).
  assert (Hmd : ends_with (lit ".md") (lit "c.md") = true)
    by (vm_compute; reflexivity).
  assert (Hmd' : ends_with (lit ".md") new_file = true)
    by (vm_compute; reflexivity).
  assert (Hr : read_at ([] ++ [lit "c.md"])
                 (Dir [(lit "c.md", File (Some marked_artifact))])
               = Some marked_artifact) by (vm_compute; reflexivity).
  assert (Hl : lookup new_file [(new_file, File (Some marked_artifact))]
               = Some (File (Some marked_artifact)))
    by (vm_compute; reflexivity).
  destruct (Hyes Hc) as (H1 & _ & H3).
  destruct (Hno Hn) as (H4 & _).
  split; [rewrite H1; vm_compute; reflexivity|].
  split; [rewrite H3; vm_compute; reflexivity|].
  split; [exact H4|].
  split.
  - rewrite (Hconv Hmd Hr). vm_compute. reflexivity.
  - rewrite (Hart Hmd' Hl). vm_compute. reflexivity.
Defined.

(* ================================================================== *)
(** * The dry run *)
(* ================================================================== *)

(** A loop whose body keeps the first component of the state and never
    raises keeps it too. *)
Lemma for_each_frame (A S L : Type) (body : A -> S * L -> outcome (S * L))
  (l : list A) (s : S) (lg : L) :
  (forall x lg0, exists lg1, body x (s, lg0) = Ok (s, lg1)) ->
  exists lg', for_each body l (s, lg) = Ok (s, lg').
Proof.
  intros Hbody. revert lg; induction l as [|x l IH]; intros lg; simpl.
  - now exists lg.
  - destruct (Hbody x lg) as [lg1 ->]. apply IH.
Qed.

Lemma fold_left_frame (A S L : Type) (body : S * L -> A -> S * L)
  (l : list A) (s : S) (lg : L) :
  (forall x lg0, fst (body (s, lg0) x) = s) ->
  fst (fold_left body l (s, lg)) = s.
Proof.
  intros Hbody. revert lg; induction l as [|x l IH]; intros lg; simpl.
  - reflexivity.
  - specialize (Hbody x lg) as Hx.
    destruct (body (s, lg) x) as [s' lg']. cbn [fst] in Hx. subst s'.
    apply IH.
Qed.

Lemma dry_run_flag_in (argv : list str) :
  dry_run_flag argv = true <-> In (lit "--dry-run") argv.
Proof.
  unfold dry_run_flag. rewrite existsb_exists. split.
  - intros [x [Hin Hx]]. apply str_eqb_eq in Hx. now subst.
  - intros Hin. exists (lit "--dry-run"). split; [exact Hin|].
    apply str_eqb_refl.
Qed.

Section DryRun.

Context (U : UnicodeData).

Lemma rename_step_dry (entry art_fname : str) (fes : dirlist) (lg : log) :
  exists lg', rename_step U true entry art_fname (fes, lg) = Ok (fes, lg').
Proof.
  unfold rename_step.
  destruct (ends_with (lit ".md") art_fname); cbn [negb]; [|now eexists].
  destruct (art_new_name U (parse_frontmatter U (lookup art_fname fes)))
    as [new_name|]; [|now eexists].
  destruct (str_eqb art_fname new_name); now eexists.
Qed.

Lemma folder_step_dry (titles dates : dict str) (entry : str)
  (art : dirlist) (lg : log) :
  exists lg', folder_step U true titles dates entry (art, lg) = Ok (art, lg').
Proof.
  unfold folder_step.
  destruct (lookup entry art) as [[data|fes]|] eqn:El; try (now eexists).
  destruct (date_prefix_re U entry); [now eexists|].
  destruct (uuid_re entry); cbn [negb]; [|now eexists].
  destruct (is_empty (dict_get entry [] titles)); [now eexists|].
  destruct (for_each_frame _ _ _ (rename_step U true entry)
              (sorted (names fes)) fes lg) as [lg' ->].
  { intros x lg0. apply rename_step_dry. }
  rewrite (put_same _ _ _ El).
  destruct (str_eqb entry _); now eexists.
Qed.

Lemma migrate_main_dry (argv : list str) (v : vault) :
  dry_run_flag argv = true -> run_vault (migrate_main U argv v) = v.
Proof.
  intros Hdry. unfold migrate_main.
  destruct argv as [|prog [|vp rest]]; try reflexivity.
  rewrite Hdry.
  destruct v as [arts convs]. cbn [artifacts conversations].
  destruct arts as [[data|art]|]; try reflexivity.
  destruct (build_conversation_index U convs) as [titles dates].
  unfold migrate_folders.
  destruct (for_each_frame _ _ _ (folder_step U true titles dates)
              (sorted (names art)) art
              (say (FoundConversations (N.of_nat (List.length titles)))
                 (say BuildingIndex log0))) as [lg' ->].
  { intros x lg0. apply folder_step_dry. }
  reflexivity.
Qed.

Lemma fix_conversation_file_dry (lm : dict str) (root : list str)
  (fname : str) (conv : node) (lg : flog) :
  fst (fix_conversation_file true lm root fname (conv, lg)) = conv.
Proof.
  unfold fix_conversation_file.
  destruct (ends_with (lit ".md") fname); cbn [negb]; [|reflexivity].
  destruct (read_at (root ++ [fname]) conv) as [c|]; [|reflexivity].
  destruct (conversation_text lm c) as [nc ch].
  destruct (str_eqb nc c); reflexivity.
Qed.

Lemma fix_conversations_dry (lm : dict str) (conv : node) (lg : flog) :
  fst (fix_conversations true lm conv lg) = conv.
Proof.
  unfold fix_conversations. apply fold_left_frame.
  intros step lg0. apply fold_left_frame.
  intros f lg1. apply fix_conversation_file_dry.
Qed.

Lemma fix_artifact_file_dry (lm : dict str) (folder_name fname : str)
  (fes : dirlist) (lg : flog) :
  fst (fix_artifact_file true lm folder_name (fes, lg) fname) = fes.
Proof.
  unfold fix_artifact_file.
  destruct (ends_with (lit ".md") fname); cbn [negb]; [|reflexivity].
  destruct (read_text (lookup fname fes)) as [c|]; [|reflexivity].
  destruct (str_eqb (artifact_text lm c) c); reflexivity.
Qed.

Lemma fix_artifacts_dry (lm : dict str) (art : dirlist) (lg : flog) :
  fst (fix_artifacts true lm art lg) = art.
Proof.
  unfold fix_artifacts. apply fold_left_frame.
  intros folder_name lg0. unfold fix_artifact_folder.
  destruct (lookup folder_name art) as [[data|fes]|] eqn:El; try reflexivity.
  pose proof (fold_left_frame _ _ _ (fix_artifact_file true lm folder_name)
                (names fes) fes lg0
                (fun x l => fix_artifact_file_dry lm folder_name x fes l))
    as Hf.
  destruct (fold_left (fix_artifact_file true lm folder_name) (names fes)
              (fes, lg0)) as [fes' lg'].
  cbn [fst] in *. subst fes'. now rewrite (put_same _ _ _ El).
Qed.

Lemma fix_main_dry (argv : list str) (v : vault) :
  dry_run_flag argv = true -> run_vault (fix_main U argv v) = v.
Proof.
  intros Hdry.
  destruct argv as [|prog [|vp rest]]; try reflexivity.
  destruct v as [arts convs].
  destruct arts as [[data|art]|]; try reflexivity.
  destruct (fix_main_result U prog vp rest
              {| artifacts := Some (Dir art); conversations := convs |}
              art eq_refl) as (lg & lg' & _ & ->).
  rewrite Hdry, fix_artifacts_dry. cbn [conversations].
  destruct convs as [conv|]; cbn [option_map]; [|reflexivity].
  now rewrite fix_conversations_dry.
Qed.

End DryRun.

(** X1. A run of either tool whose argument list holds [--dry-run]
    anywhere leaves the vault as it found it: nothing is created,
    renamed, moved, deleted or written. *)
Theorem dry_run_frame (U : UnicodeData) (argv : list str) (v : vault) :
  In (lit "--dry-run") argv ->
  run_vault (migrate_main U argv v) = v
  /\ run_vault (fix_main U argv v) = v.
Proof.
  intros Hin. apply dry_run_flag_in in Hin.
  split; [now apply migrate_main_dry|now apply fix_main_dry].
Qed.

Lemma dry_run_frame_witness :
  run_vault (migrate_main ascii_only dry_run_argv (scenario_vault [] record_body0))
  = scenario_vault [] record_body0
  /\ run_vault (fix_main ascii_only dry_run_argv (scenario_vault [] record_body0))
     = scenario_vault [] record_body0.
Proof.
  apply (dry_run_frame ascii_only dry_run_argv (scenario_vault [] record_body0)).
  simpl. right. right. left. reflexivity.
Defined.

(* ================================================================== *)
(** * How a run ends *)
(* ================================================================== *)


Section Endings.

Context (U : UnicodeData).






End Endings.

(** With the artifacts directory in place the Migrator still ends with
    status 1 when a rename raises. *)
Lemma exit_status_as_specified_fails :
  ~ exit_status_as_specified ascii_only scenario_argv blocked_vault.
Proof.
  intros H. unfold exit_status_as_specified in H.
  assert (Hs : exit_status
                 (run_end (migrate_main ascii_only scenario_argv blocked_vault))
               = 0%N).
  { apply H; [simpl; lia|reflexivity]. }
  vm_compute in Hs. discriminate Hs.
Qed.



(* ================================================================== *)
(** * Merging a folder into an existing one *)
(* ================================================================== *)

Lemma lookup_remove (name other : str) (es : dirlist) :
  lookup other (remove name es)
  = if str_eqb other name then None else lookup other es.
Proof.
  destruct (str_eqb other name) eqn:E.
  - apply str_eqb_eq in E. subst. apply lookup_remove_eq.
  - apply str_eqb_neq in E. now apply lookup_remove_neq.
Qed.

Lemma lookup_snoc (name other : str) (x : node) (es : dirlist) :
  lookup other (es ++ [(name, x)])
  = match lookup other es with
    | Some y => Some y
    | None => if str_eqb other name then Some x else None
    end.
Proof. rewrite lookup_app. reflexivity. Qed.

(** What the merge loop over the names [l] does to one name [f]. *)
Lemma merge_loop_lookup (l : list str) (src dst : dirlist) (f : str) :
  let r := fold_left (fun st g => merge_step g st) l (src, dst) in
  match lookup f dst with
  | Some x => lookup f (snd r) = Some x /\ lookup f (fst r) = lookup f src
  | None =>
      if existsb (str_eqb f) l
      then lookup f (snd r) = lookup f src /\ lookup f (fst r) = None
      else lookup f (snd r) = None /\ lookup f (fst r) = lookup f src
  end.
Proof.
  revert src dst; induction l as [|g l IH]; intros src dst.
  - cbn. destruct (lookup f dst); auto.
  - cbn [fold_left existsb]. specialize (IH (fst (merge_step g (src, dst)))
                                  (snd (merge_step g (src, dst)))).
    rewrite <- surjective_pairing in IH. cbv zeta in IH |- *.
    set (r := fold_left (fun st g0 => merge_step g0 st) l
                (merge_step g (src, dst))) in *.
    unfold merge_step in IH.
    destruct (lookup g dst) as [y|] eqn:Egd.
    { (* [g] is taken at the destination: nothing moves *)
      cbn [fst snd] in IH.
      destruct (lookup f dst) as [x|] eqn:Efd; [exact IH|].
      destruct (str_eqb f g) eqn:Efg; cbn [orb]; [|exact IH].
      apply str_eqb_eq in Efg. subst g. congruence. }
    destruct (lookup g src) as [y|] eqn:Egs; cbn [fst snd] in IH.
    + (* [g] moves *)
      rewrite lookup_snoc, lookup_remove in IH.
      destruct (lookup f dst) as [x|] eqn:Efd.
      * destruct (str_eqb f g) eqn:Efg; [|exact IH].
        apply str_eqb_eq in Efg. subst g. congruence.
      * destruct (str_eqb f g) eqn:Efg; cbn [orb].
        -- apply str_eqb_eq in Efg. subst g. rewrite Egs.
           destruct IH as [H1 H2]. split; [exact H1|].
           destruct (existsb (str_eqb f) l); tauto.
        -- exact IH.
    + (* [g] is not there any more *)
      destruct (lookup f dst) as [x|] eqn:Efd; [exact IH|].
      destruct (str_eqb f g) eqn:Efg; cbn [orb]; [|exact IH].
      apply str_eqb_eq in Efg. subst g. rewrite Egs in *.
      destruct (existsb (str_eqb f) l); tauto.
Qed.

Lemma existsb_names (f : str) (es : dirlist) :
  existsb (str_eqb f) (names es) = false -> lookup f es = None.
Proof.
  induction es as [|[n x] es IH]; simpl; [reflexivity|].
  destruct (str_eqb f n); simpl; [discriminate|exact IH].
Qed.

(** The merge of lines 201-205: an entry moves exactly when its name is
    free at the destination; what was at the destination stays. *)
Lemma merge_entries_lookup (src dst : dirlist) (f : str) :
  match lookup f dst with
  | Some x =>
      lookup f (snd (merge_entries src dst)) = Some x
      /\ lookup f (fst (merge_entries src dst)) = lookup f src
  | None =>
      lookup f (snd (merge_entries src dst)) = lookup f src
      /\ lookup f (fst (merge_entries src dst)) = None
  end.
Proof.
  unfold merge_entries.
  pose proof (merge_loop_lookup (names src) src dst f) as H.
  cbv zeta in H. destruct (lookup f dst) as [x|]; [exact H|].
  destruct (existsb (str_eqb f) (names src)) eqn:E; [exact H|].
  apply existsb_names in E. rewrite E in *. destruct H as [H1 H2].
  split; congruence.
Qed.

Lemma lookup_rmdir_quiet (entry other : str) (src art : dirlist) :
  lookup other (rmdir_quiet entry src art)
  = if str_eqb other entry
    then match src with [] => None | _ => Some (Dir src) end
    else lookup other art.
Proof.
  unfold rmdir_quiet. destruct (str_eqb other entry) eqn:E.
  - apply str_eqb_eq in E. subst other.
    destruct src; [apply lookup_remove_eq|apply lookup_put_eq].
  - apply str_eqb_neq in E.
    destruct src; [now apply lookup_remove_neq|now apply lookup_put_neq].
Qed.

(** X3. When the target folder exists, the folder move is a
    merge: every entry of the destination stays as it was (nothing is
    overwritten); an entry of the source moves to the destination exactly
    when its name is free there, and otherwise stays in the source; the
    source folder is removed exactly when nothing stayed in it, and kept
    without an error otherwise; no other folder changes. *)
Theorem merge_keeps_every_entry (entry target : str) (src dst art : dirlist)
  (lg : log) :
  lookup entry art = Some (Dir src) ->
  lookup target art = Some (Dir dst) ->
  entry <> target -> target <> [] ->
  exists src' dst' lg',
    move_folder entry target src (art, lg)
    = Ok (rmdir_quiet entry src' (put target (Dir dst') art), lg')
    /\ (forall f x, lookup f dst = Some x -> lookup f dst' = Some x)
    /\ (forall f x, lookup f src = Some x -> lookup f dst = None ->
                    lookup f dst' = Some x /\ lookup f src' = None)
    /\ (forall f x, lookup f src = Some x -> lookup f dst <> None ->
                    lookup f src' = Some x)
    /\ (forall f, lookup f dst' <> None ->
                  lookup f dst <> None \/ lookup f src <> None)
    /\ lookup target (rmdir_quiet entry src' (put target (Dir dst') art))
       = Some (Dir dst')
    /\ lookup entry (rmdir_quiet entry src' (put target (Dir dst') art))
       = match src' with [] => None | _ => Some (Dir src') end
    /\ (forall other, other <> entry -> other <> target ->
        lookup other (rmdir_quiet entry src' (put target (Dir dst') art))
        = lookup other art).
Proof.
  intros He Ht Hne Hnonempty.
  exists (fst (merge_entries src dst)), (snd (merge_entries src dst)),
    (count_moved (say (PrintMerged entry target) lg)).
  split.
  { unfold move_folder. destruct target as [|c t]; [congruence|].
    cbn [is_empty]. rewrite Ht.
    now destruct (merge_entries src dst). }
  split; [|split; [|split; [|split; [|split; [|split]]]]].
  - intros f x Hd. pose proof (merge_entries_lookup src dst f) as H.
    rewrite Hd in H. tauto.
  - intros f x Hs Hd. pose proof (merge_entries_lookup src dst f) as H.
    rewrite Hd in H. rewrite <- Hs. exact H.
  - intros f x Hs Hd. pose proof (merge_entries_lookup src dst f) as H.
    destruct (lookup f dst); [|congruence]. rewrite <- Hs. tauto.
  - intros f Hd'. pose proof (merge_entries_lookup src dst f) as H.
    destruct (lookup f dst); [left; discriminate|].
    right. destruct H as [H _]. congruence.
  - rewrite lookup_rmdir_quiet.
    assert (E : str_eqb target entry = false)
      by (apply str_eqb_neq; congruence).
    rewrite E. apply lookup_put_eq.
  - rewrite lookup_rmdir_quiet, str_eqb_refl. reflexivity.
  - intros other Hoe Hot. rewrite lookup_rmdir_quiet.
    apply str_eqb_neq in Hoe. rewrite Hoe. now apply lookup_put_neq.
Qed.

Lemma merge_keeps_every_entry_witness :
  exists src' dst' lg',
    move_folder uuid2 shared_folder
      [(lit "img.png", File (Some (lit "second")));
       (lit "b.txt", File (Some (lit "only in b")))]
      ([(shared_folder, Dir [(lit "img.png", File (Some (lit "first")))]);
        (uuid2, Dir [(lit "img.png", File (Some (lit "second")));
                     (lit "b.txt", File (Some (lit "only in b")))])], log0)
    = Ok ([(shared_folder, Dir dst'); (uuid2, Dir src')], lg')
    /\ lookup (lit "img.png") dst' = Some (File (Some (lit "first")))
    /\ lookup (lit "b.txt") dst' = Some (File (Some (lit "only in b")))
    /\ lookup (lit "img.png") src' = Some (File (Some (lit "second"))).
Proof.
  destruct (merge_keeps_every_entry uuid2 shared_folder
              [(lit "img.png", File (Some (lit "second")));
               (lit "b.txt", File (Some (lit "only in b")))]
              [(lit "img.png", File (Some (lit "first")))]
              [(shared_folder, Dir [(lit "img.png", File (Some (lit "first")))]);
               (uuid2, Dir [(lit "img.png", File (Some (lit "second")));
                            (lit "b.txt", File (Some (lit "only in b")))])]
              log0 eq_refl eq_refl)
    as (src' & dst' & lg' & Hmove & Hkeep & Hmoved & Hstay & _);
    [discriminate|discriminate|].
  exists src', dst', lg'.
  destruct (Hmoved (lit "b.txt") (File (Some (lit "only in b"))) eq_refl eq_refl)
    as [Hb _].
  pose proof (Hkeep (lit "img.png") (File (Some (lit "first"))) eq_refl) as Hi.
  assert (Hs : lookup (lit "img.png") src' = Some (File (Some (lit "second")))).
  { apply Hstay; [reflexivity|discriminate]. }
  split; [|auto].
  rewrite Hmove. destruct src' as [|e src']; [discriminate Hs|].
  reflexivity.
Defined.

(** In [shared_vault] the picture of the second folder is not in the
    destination after the migration: the first one has its name. *)
Lemma merge_as_specified_fails :
  ~ merge_as_specified ascii_only shared_vault uuid1 uuid2 shared_folder.
Proof.
  intros H.
  destruct (H [(uuid1, Dir [(lit "img.png", File (Some (lit "first")))]);
               (uuid2, Dir [(lit "img.png", File (Some (lit "second")))])]
              [(lit "img.png", File (Some (lit "first")))]
              [(lit "img.png", File (Some (lit "second")))]
              [(uuid2, Dir [(lit "img.png", File (Some (lit "second")))]);
               (shared_folder,
                Dir [(lit "img.png", File (Some (lit "first")))])])
    as (ft & Hft & Hall); try (vm_compute; reflexivity).
  vm_compute in Hft. inversion Hft; subst ft. clear Hft.
  specialize (Hall (lit "img.png") (File (Some (lit "second"))) eq_refl
                (or_intror eq_refl)).
  vm_compute in Hall. discriminate Hall.
Qed.

(* ================================================================== *)
(** * Idempotence of the Migrator *)
(* ================================================================== *)

Lemma for_each_cons_ok (A S : Type) (body : A -> S -> outcome S) (x : A)
  (l : list A) (st st' : S) :
  for_each body (x :: l) st = Ok st' ->
  exists st1, body x st = Ok st1 /\ for_each body l st1 = Ok st'.
Proof.
  simpl. destruct (body x st) as [st1|e st1]; [|discriminate].
  intros H. now exists st1.
Qed.

(** An invariant of the part of the list still to visit and the state. *)
Lemma for_each_invariant (A S : Type) (Inv : list A -> S -> Prop)
  (body : A -> S -> outcome S) :
  (forall x l s s', Inv (x :: l) s -> body x s = Ok s' -> Inv l s') ->
  forall l s s', Inv l s -> for_each body l s = Ok s' -> Inv [] s'.
Proof.
  intros Hstep l. induction l as [|x l IH]; intros s s' Hinv Hrun.
  - simpl in Hrun. now inversion Hrun; subst.
  - apply for_each_cons_ok in Hrun as (s1 & Hx & Hrest).
    eapply IH; [|exact Hrest]. eapply Hstep; eauto.
Qed.

Section RenameLoop.

Context (U : UnicodeData).

Lemma file_settled_absent (fes : dirlist) (f : str) :
  lookup f fes = None -> file_settled U fes f.
Proof.
  intros H. unfold file_settled, parse_frontmatter. now rewrite H.
Qed.

Lemma file_settled_same (fes fes' : dirlist) (f : str) :
  lookup f fes' = lookup f fes -> file_settled U fes f ->
  file_settled U fes' f.
Proof.
  unfold file_settled, parse_frontmatter. now intros ->.
Qed.

(** On a settled folder the loop over its files changes nothing and
    counts no rename. *)
Lemma rename_loop_settled (entry : str) (fes : dirlist) (l : list str)
  (lg : log) :
  settled U fes ->
  exists lg',
    for_each (rename_step U false entry) l (fes, lg) = Ok (fes, lg')
    /\ file_renames lg' = file_renames lg /\ moved lg' = moved lg.
Proof.
  intros Hs. revert lg; induction l as [|f l IH]; intros lg.
  - exists lg. now simpl.
  - cbn [for_each]. unfold rename_step at 1.
    destruct (ends_with (lit ".md") f) eqn:Emd; cbn [negb]; [|apply IH].
    specialize (Hs f Emd). unfold file_settled in Hs.
    destruct (art_new_name U (parse_frontmatter U (lookup f fes))) as [n|].
    + subst n. rewrite str_eqb_refl. apply IH.
    + destruct (IH (count_skipped (say (WarnNoTitle entry f) lg)))
        as (lg' & Hrun & Hr & Hm).
      exists lg'. now rewrite Hrun.
Qed.

(** One step of the loop: the file it visits is settled afterwards, and
    so is every file that was. *)
Lemma rename_step_settles (entry f : str) (l : list str)
  (fes fes' : dirlist) (lg lg' : log) :
  (forall g, ends_with (lit ".md") g = true ->
             In g (f :: l) \/ file_settled U fes g) ->
  rename_step U false entry f (fes, lg) = Ok (fes', lg') ->
  forall g, ends_with (lit ".md") g = true ->
            In g l \/ file_settled U fes' g.
Proof.
  intros Hinv Hstep g Hg. unfold rename_step in Hstep.
  destruct (ends_with (lit ".md") f) eqn:Emd; cbn [negb] in Hstep.
  2:{ inversion Hstep; subst.
      destruct (Hinv g Hg) as [[->|Hin]|Hok]; [congruence|now left|now right]. }
  destruct (art_new_name U (parse_frontmatter U (lookup f fes))) as [n|] eqn:En.
  2:{ inversion Hstep; subst.
      destruct (Hinv g Hg) as [[->|Hin]|Hok]; [|now left|now right].
      right. unfold file_settled. now rewrite En. }
  destruct (str_eqb f n) eqn:Efn.
  { inversion Hstep; subst. apply str_eqb_eq in Efn. subst n.
    destruct (Hinv g Hg) as [[->|Hin]|Hok]; [|now left|now right].
    right. unfold file_settled. now rewrite En. }
  unfold os_rename in Hstep. rewrite Efn in Hstep.
  destruct (lookup f fes) as [x|] eqn:Elf.
  2:{ vm_compute in En. discriminate En. }
  assert (Hnew : fes' = put n x (remove f fes)).
  { destruct x as [data|sub]; destruct (lookup n fes) as [[d2|[|e2 s2]]|];
      now inversion Hstep. }
  subst fes'. clear Hstep.
  destruct (str_eqb g n) eqn:Egn.
  - apply str_eqb_eq in Egn. subst g. right.
    unfold file_settled, parse_frontmatter. rewrite lookup_put_eq.
    unfold parse_frontmatter in En. now rewrite En.
  - apply str_eqb_neq in Egn.
    destruct (str_eqb g f) eqn:Egf.
    + apply str_eqb_eq in Egf. subst g. right.
      apply file_settled_absent.
      rewrite lookup_put_neq by exact Egn. apply lookup_remove_eq.
    + apply str_eqb_neq in Egf.
      destruct (Hinv g Hg) as [[Heq|Hin]|Hok]; [congruence|now left|right].
      apply (file_settled_same fes); [|exact Hok].
      rewrite lookup_put_neq by exact Egn. now apply lookup_remove_neq.
Qed.

(** When the loop over the files of a folder ends, the folder is
    settled. *)
Lemma rename_loop_settles (entry : str) (fes fes' : dirlist) (lg lg' : log) :
  for_each (rename_step U false entry) (sorted (names fes)) (fes, lg)
  = Ok (fes', lg') ->
  settled U fes'.
Proof.
  intros Hrun.
  pose (Inv := fun (l : list str) (st : list (str * node) * log) =>
                 forall g, ends_with (lit ".md") g = true ->
                           In g l \/ file_settled U (fst st) g).
  assert (Hfinal : Inv [] (fes', lg')).
  { apply (for_each_invariant _ _ Inv (rename_step U false entry))
      with (l := sorted (names fes)) (s := (fes, lg)); [| |exact Hrun].
    - intros x l [s lg0] [s' lg1] Hinv Hstep. unfold Inv in *. cbn [fst] in *.
      eapply rename_step_settles; eauto.
    - unfold Inv. cbn [fst]. intros g Hg.
      destruct (lookup g fes) as [x|] eqn:El.
      + left. apply in_sorted. apply lookup_in_names. congruence.
      + right. now apply file_settled_absent. }
  intros g Hg. destruct (Hfinal g Hg) as [[]|H]. exact H.
Qed.

End RenameLoop.

Lemma dict_find_in_keys (V : Type) (k : str) (v : V) (d : dict V) :
  dict_find k d = Some v -> In k (map fst d).
Proof.
  induction d as [|[k' v'] d IH]; simpl; [discriminate|].
  destruct (str_eqb k k') eqn:E.
  - apply str_eqb_eq in E. now left.
  - intros H. right. now apply IH.
Qed.

Lemma dict_get_nonempty_key (k : str) (d : dict str) :
  is_empty (dict_get k [] d) = false -> In k (map fst d).
Proof.
  unfold dict_get. induction d as [|[k' v] d IH]; simpl; [discriminate|].
  destruct (str_eqb k k') eqn:E.
  - intros _. left. apply str_eqb_eq in E. congruence.
  - intros H. right. now apply IH.
Qed.

(** When every name of the source is taken at the destination the merge
    moves nothing. *)
Lemma merge_loop_noop (l : list str) (src dst : dirlist) :
  (forall f, In f l -> lookup f dst <> None) ->
  fold_left (fun st g => merge_step g st) l (src, dst) = (src, dst).
Proof.
  induction l as [|g l IH]; intros H; cbn [fold_left]; [reflexivity|].
  assert (Hg : merge_step g (src, dst) = (src, dst)).
  { unfold merge_step. destruct (lookup g dst) eqn:E; [reflexivity|].
    exfalso. apply (H g); [now left|exact E]. }
  rewrite Hg. apply IH. intros f Hf. apply H. now right.
Qed.

Lemma merge_entries_noop (src dst : dirlist) :
  (forall f, lookup f src <> None -> lookup f dst <> None) ->
  merge_entries src dst = (src, dst).
Proof.
  intros H. unfold merge_entries. apply merge_loop_noop.
  intros f Hf. apply H. now apply lookup_in_names.
Qed.

Lemma date_prefix_re_not_uuid (U : UnicodeData) (s : str) :
  date_prefix_re U s = true -> uuid_re s = false.
Proof.
  unfold date_prefix_re, match_date, uuid_re.
  destruct s as [|c1 [|c2 [|c3 [|c4 [|c5 s]]]]]; try discriminate.
  destruct s as [|c6 [|c7 [|c8 [|c9 [|c10 s]]]]]; try discriminate.
  intros H. repeat (apply andb_true_iff in H as [H ?]).
  match goal with Hh : N.eqb c5 45 = true |- _ => apply N.eqb_eq in Hh; subst c5 end.
  cbn [hex_run].
  destruct (is_lower_hex c1); [|reflexivity].
  destruct (is_lower_hex c2); [|reflexivity].
  destruct (is_lower_hex c3); [|reflexivity].
  destruct (is_lower_hex c4); reflexivity.
Qed.

Section Quiet.

Context (U : UnicodeData) (titles dates : dict str).

Hypothesis Hsettle : targets_settle U titles dates = true.

Lemma active_target (e : str) :
  active U titles e = true ->
  is_empty (target_of U titles dates e) = false
  /\ uuid_re (target_of U titles dates e) = false.
Proof.
  intros Ha. pose proof Ha as Ha'. unfold active in Ha'.
  apply andb_true_iff in Ha' as [_ Ht]. apply negb_true_iff in Ht.
  assert (Hin : In e (map fst titles))
    by now apply dict_get_nonempty_key.
  unfold targets_settle in Hsettle. rewrite forallb_forall in Hsettle.
  specialize (Hsettle e Hin). rewrite Ha in Hsettle. cbn [negb orb] in Hsettle.
  apply andb_true_iff in Hsettle as [H1 H2].
  now rewrite negb_true_iff in H1, H2.
Qed.

Lemma active_not_target (e k : str) :
  active U titles e = true -> active U titles k = true ->
  target_of U titles dates k <> e.
Proof.
  intros He Hk Heq. destruct (active_target k Hk) as [_ Hu].
  rewrite Heq in Hu. unfold active in He.
  apply andb_true_iff in He as [He _]. apply andb_true_iff in He as [_ He].
  congruence.
Qed.

Lemma quiet_inactive (art : dirlist) (e : str) :
  active U titles e = false -> quiet U titles dates art e.
Proof.
  intros H. unfold quiet.
  destruct (lookup e art) as [[d|fes]|]; auto. congruence.
Qed.

Lemma quiet_not_dir (art : dirlist) (e : str) :
  is_dir (lookup e art) = false -> quiet U titles dates art e.
Proof.
  unfold quiet. destruct (lookup e art) as [[d|fes]|]; auto. discriminate.
Qed.

(** [quiet] moves to a listing that keeps the entry and keeps or grows
    its target. *)
Lemma quiet_transfer (art art' : dirlist) (k : str) :
  lookup k art' = lookup k art ->
  (active U titles k = true ->
   forall dst, lookup (target_of U titles dates k) art = Some (Dir dst) ->
     exists dst', lookup (target_of U titles dates k) art' = Some (Dir dst')
                  /\ forall f, lookup f dst <> None -> lookup f dst' <> None) ->
  quiet U titles dates art k -> quiet U titles dates art' k.
Proof.
  intros Hk Ht Hq. unfold quiet in *. rewrite Hk.
  destruct (lookup k art) as [[d|fes]|]; auto.
  intros Ha. destruct (Hq Ha) as (Hs & Hne & dst & Hd & Hsub).
  split; [exact Hs|]. split; [exact Hne|].
  destruct (Ht Ha dst Hd) as (dst' & Hd' & Hgrow).
  exists dst'. split; [exact Hd'|]. intros f Hf. apply Hgrow, Hsub, Hf.
Qed.

(** A run leaves a quiet entry alone and counts no file rename for it. *)
Lemma folder_step_quiet (art : dirlist) (e : str) (lg : log) :
  quiet U titles dates art e ->
  exists lg',
    folder_step U false titles dates e (art, lg) = Ok (art, lg')
    /\ file_renames lg' = file_renames lg.
Proof.
  intros Hq. unfold quiet in Hq. unfold folder_step.
  destruct (lookup e art) as [[d|fes]|] eqn:El; try (now exists lg).
  destruct (date_prefix_re U e) eqn:Ed; [now exists lg|].
  destruct (uuid_re e) eqn:Eu; cbn [negb]; [|now exists lg].
  destruct (is_empty (dict_get e [] titles)) eqn:Et; [now eexists|].
  assert (Ha : active U titles e = true).
  { unfold active. now rewrite Ed, Eu, Et. }
  destruct (Hq Ha) as (Hs & Hne & dst & Hd & Hsub).
  destruct (active_target e Ha) as [Hte Htu].
  destruct (rename_loop_settled U e fes (sorted (names fes)) lg Hs)
    as (lg1 & Hrun & Hr & Hm).
  rewrite Hrun. rewrite (put_same _ _ _ El).
  fold (target_of U titles dates e).
  assert (Ene : str_eqb e (target_of U titles dates e) = false).
  { apply str_eqb_neq. intros Heq. rewrite <- Heq in Htu. congruence. }
  rewrite Ene. unfold move_folder. rewrite Hte, Hd.
  rewrite (merge_entries_noop fes dst Hsub).
  exists (count_moved (say (PrintMerged e (target_of U titles dates e)) lg1)).
  split; [|exact Hr].
  unfold rmdir_quiet. destruct fes as [|x fes]; [congruence|].
  rewrite (put_same _ _ _ Hd). now rewrite (put_same _ _ _ El).
Qed.

(** One step of the loop over the artifacts directory: the folder it
    visits is quiet afterwards (or gone), and so is every entry that
    was. *)
Lemma folder_step_keeps_quiet (e : str) (l : list str) (art art' : dirlist)
  (lg lg' : log) :
  (forall k, In k (e :: l) \/ quiet U titles dates art k) ->
  folder_step U false titles dates e (art, lg) = Ok (art', lg') ->
  forall k, In k l \/ quiet U titles dates art' k.
Proof.
  intros Hinv Hstep k.
  assert (Hk0 : k = e \/ In k l \/ quiet U titles dates art k).
  { destruct (Hinv k) as [[->|H]|H]; auto. }
  clear Hinv. unfold folder_step in Hstep.
  destruct (lookup e art) as [[d|fes]|] eqn:El.
  1,3: inversion Hstep; subst art' lg';
       destruct Hk0 as [->|[H|H]]; auto;
       right; apply quiet_not_dir; now rewrite El.
  destruct (date_prefix_re U e) eqn:Ed.
  { inversion Hstep; subst art' lg'. destruct Hk0 as [->|[H|H]]; auto.
    right. apply quiet_inactive. unfold active. now rewrite Ed. }
  destruct (uuid_re e) eqn:Eu; cbn [negb] in Hstep.
  2:{ inversion Hstep; subst art' lg'. destruct Hk0 as [->|[H|H]]; auto.
      right. apply quiet_inactive. unfold active. now rewrite Ed, Eu. }
  destruct (is_empty (dict_get e [] titles)) eqn:Et.
  { inversion Hstep; subst art' lg'. destruct Hk0 as [->|[H|H]]; auto.
    right. apply quiet_inactive. unfold active. now rewrite Ed, Eu, Et. }
  assert (Ha : active U titles e = true).
  { unfold active. now rewrite Ed, Eu, Et. }
  destruct (active_target e Ha) as [Hte Htu].
  destruct (for_each (rename_step U false e) (sorted (names fes)) (fes, lg))
    as [[fes' lg1]|e1 [fes' lg1]] eqn:Ef; [|discriminate Hstep].
  pose proof (rename_loop_settles U e fes fes' lg lg1 Ef) as Hs'.
  fold (target_of U titles dates e) in Hstep.
  set (T := target_of U titles dates e) in *.
  assert (HeT : e <> T) by (intros Heq; rewrite <- Heq in Htu; congruence).
  assert (Ene : str_eqb e T = false) by now apply str_eqb_neq.
  assert (EnT : str_eqb T e = false) by (apply str_eqb_neq; congruence).
  rewrite Ene in Hstep. unfold move_folder in Hstep. rewrite Hte in Hstep.
  assert (HTq : quiet U titles dates art' T).
  { apply quiet_inactive. unfold active. rewrite Htu.
    now rewrite andb_false_r. }
  assert (HlT : lookup T (put e (Dir fes') art) = lookup T art).
  { apply lookup_put_neq. congruence. }
  destruct (lookup T (put e (Dir fes') art)) as [[d|dst]|] eqn:ElT.
  - (* the target is a file: the rename raises *)
    unfold os_rename in Hstep.
    rewrite lookup_put_eq, Ene, ElT in Hstep. discriminate Hstep.
  - (* merge *)
    pose proof (merge_entries_lookup fes' dst) as Hm.
    destruct (merge_entries fes' dst) as [src' dst'] eqn:Em.
    cbn [fst snd] in Hm. inversion Hstep; subst art' lg'. clear Hstep.
    destruct (str_eqb k e) eqn:Eke.
    + apply str_eqb_eq in Eke. subst k. right. unfold quiet. fold T.
      rewrite lookup_rmdir_quiet, str_eqb_refl.
      destruct src' as [|x0 src0] eqn:Es; [exact I|]. rewrite <- Es in *.
      intros _. split; [|split].
      * intros f Hf. specialize (Hm f).
        destruct (lookup f dst) as [y|].
        -- apply (file_settled_same U fes'); [tauto|now apply Hs'].
        -- apply file_settled_absent. tauto.
      * rewrite Es. discriminate.
      * exists dst'. split.
        -- rewrite lookup_rmdir_quiet, EnT. apply lookup_put_eq.
        -- intros f Hf. specialize (Hm f).
           destruct (lookup f dst) as [y|]; destruct Hm as [H1 H2];
             congruence.
    + apply str_eqb_neq in Eke.
      destruct Hk0 as [->|[H|Hq]]; [congruence|now left|right].
      destruct (str_eqb k T) eqn:EkT.
      { apply str_eqb_eq in EkT. now subst k. }
      apply str_eqb_neq in EkT.
      apply (quiet_transfer art); [| |exact Hq].
      * rewrite lookup_rmdir_quiet.
        apply str_eqb_neq in Eke. rewrite Eke.
        rewrite lookup_put_neq by exact EkT.
        apply lookup_put_neq. now apply str_eqb_neq.
      * intros Hak dst0 Hd0.
        pose proof (active_not_target e k Ha Hak) as Hne.
        rewrite lookup_rmdir_quiet.
        assert (E1 : str_eqb (target_of U titles dates k) e = false)
          by now apply str_eqb_neq.
        rewrite E1.
        destruct (str_eqb (target_of U titles dates k) T) eqn:E2.
        -- apply str_eqb_eq in E2. rewrite E2 in *.
           rewrite lookup_put_eq. exists dst'. split; [reflexivity|].
           assert (dst0 = dst) by congruence. subst dst0.
           intros f Hf. specialize (Hm f).
           destruct (lookup f dst) as [y|]; [|congruence].
           destruct Hm as [H1 _]. congruence.
        -- apply str_eqb_neq in E2. exists dst0. split; [|auto].
           rewrite lookup_put_neq by exact E2.
           rewrite lookup_put_neq by exact Hne. exact Hd0.
  - (* plain rename *)
    unfold os_rename in Hstep.
    rewrite lookup_put_eq, Ene, ElT in Hstep.
    inversion Hstep; subst art' lg'. clear Hstep.
    destruct (str_eqb k e) eqn:Eke.
    + apply str_eqb_eq in Eke. subst k. right. apply quiet_not_dir.
      rewrite lookup_put_neq by exact HeT. now rewrite lookup_remove_eq.
    + apply str_eqb_neq in Eke.
      destruct Hk0 as [->|[H|Hq]]; [congruence|now left|right].
      destruct (str_eqb k T) eqn:EkT.
      { apply str_eqb_eq in EkT. now subst k. }
      apply str_eqb_neq in EkT.
      apply (quiet_transfer art); [| |exact Hq].
      * rewrite lookup_put_neq by exact EkT.
        rewrite lookup_remove_neq by exact Eke.
        now apply lookup_put_neq.
      * intros Hak dst0 Hd0.
        pose proof (active_not_target e k Ha Hak) as Hne.
        assert (HnT : target_of U titles dates k <> T).
        { intros Heq. rewrite Heq in Hd0. congruence. }
        exists dst0. split; [|auto].
        rewrite lookup_put_neq by exact HnT.
        rewrite lookup_remove_neq by exact Hne.
        rewrite lookup_put_neq by exact Hne. exact Hd0.
Qed.

End Quiet.

Section Twice.

Context (U : UnicodeData) (titles dates : dict str).

Hypothesis Hsettle : targets_settle U titles dates = true.

(** After a run that ends normally every entry of the artifacts
    directory is quiet. *)
Lemma migrate_folders_quiet (art art1 : dirlist) (lg lg1 : log) :
  migrate_folders U false titles dates art lg = Ok (art1, lg1) ->
  forall k, quiet U titles dates art1 k.
Proof.
  intros Hrun.
  pose (Inv := fun (l : list str) (st : list (str * node) * log) =>
                 forall k, In k l \/ quiet U titles dates (fst st) k).
  assert (Hfinal : Inv [] (art1, lg1)).
  { apply (for_each_invariant _ _ Inv (folder_step U false titles dates))
      with (l := sorted (names art)) (s := (art, lg)); [| |exact Hrun].
    - intros x l [s lg0] [s' lg0'] Hinv Hstep. unfold Inv in *.
      cbn [fst] in *.
      eapply folder_step_keeps_quiet; eauto.
    - unfold Inv. cbn [fst]. intros k.
      destruct (lookup k art) as [x|] eqn:El.
      + left. apply in_sorted. apply lookup_in_names. congruence.
      + right. apply quiet_not_dir. now rewrite El. }
  intros k. destruct (Hfinal k) as [[]|H]. exact H.
Qed.

(** On a directory whose entries are all quiet the loop changes nothing
    and counts no file rename. *)
Lemma migrate_folders_again (art : dirlist) (l : list str) (lg : log) :
  (forall k, quiet U titles dates art k) ->
  exists lg',
    for_each (folder_step U false titles dates) l (art, lg) = Ok (art, lg')
    /\ file_renames lg' = file_renames lg.
Proof.
  intros Hq. revert lg; induction l as [|e l IH]; intros lg.
  - now exists lg.
  - cbn [for_each].
    destruct (folder_step_quiet U titles dates Hsettle art e lg (Hq e))
      as (lg1 & Hstep & Hr).
    rewrite Hstep. destruct (IH lg1) as (lg' & Hrun & Hr').
    exists lg'. split; [exact Hrun|congruence].
Qed.

End Twice.

(** X6. The Migrator is idempotent on a vault whose conversation index sends
    no folder to an empty name or to a name shaped like a conversation
    id: after a run that ended normally, a second run leaves the vault as
    it is, ends normally and reports zero file renames. *)
Theorem migrate_twice (U : UnicodeData) (prog vp : str) (rest : list str)
  (v : vault) :
  dry_run_flag (prog :: vp :: rest) = false ->
  targets_settle U (fst (build_conversation_index U (conversations v)))
    (snd (build_conversation_index U (conversations v))) = true ->
  run_end (migrate_main U (prog :: vp :: rest) v) = Finished ->
  let r1 := migrate_main U (prog :: vp :: rest) v in
  let r2 := migrate_main U (prog :: vp :: rest) (run_vault r1) in
  run_vault r2 = run_vault r1
  /\ run_end r2 = Finished
  /\ exists pre m s, run_output r2 = pre ++ [MigrationSummary m 0 s].
Proof.
  intros Hdry Hsettle Hfin r1 r2. subst r2 r1.
  unfold migrate_main in *. rewrite Hdry in *.
  destruct (artifacts v) as [[d|art]|] eqn:Ha; try discriminate Hfin.
  destruct (build_conversation_index U (conversations v))
    as [titles dates] eqn:Eidx.
  cbn [fst snd] in Hsettle.
  destruct (migrate_folders U false titles dates art
              (say (FoundConversations (N.of_nat (List.length titles)))
                 (say BuildingIndex log0)))
    as [[art1 lg1]|e [art1 lg1]] eqn:Erun; [|discriminate Hfin].
  cbn [run_vault artifacts conversations]. rewrite Eidx.
  pose proof (migrate_folders_quiet U titles dates Hsettle _ _ _ _ Erun) as Hq.
  unfold migrate_folders.
  destruct (migrate_folders_again U titles dates Hsettle art1
              (sorted (names art1))
              (say (FoundConversations (N.of_nat (List.length titles)))
                 (say BuildingIndex log0)) Hq) as (lg2 & Hrun2 & Hr2).
  rewrite Hrun2. cbn [run_vault run_end run_output].
  split; [reflexivity|]. split; [reflexivity|].
  unfold summary. exists (printed lg2), (moved lg2), (skipped lg2).
  rewrite Hr2. reflexivity.
Qed.

Lemma migrate_twice_witness :
  run_vault (migrate_main ascii_only scenario_argv
               (run_vault (migrate_main ascii_only scenario_argv shared_vault)))
  = run_vault (migrate_main ascii_only scenario_argv shared_vault)
  /\ lookup uuid2
       (match artifacts
                (run_vault (migrate_main ascii_only scenario_argv shared_vault))
        with Some (Dir art) => art | _ => [] end)
     = Some (Dir [(lit "img.png", File (Some (lit "second")))]).
Proof.
  split; [|reflexivity].
  apply (migrate_twice ascii_only (lit "tool.py") (lit "/vault") []
           shared_vault); reflexivity.
Defined.

(* ================================================================== *)
(** * Dated names *)
(* ================================================================== *)

Lemma starts_with_refl_app (p s : str) : starts_with p (p ++ s) = true.
Proof. apply starts_with_app. Qed.

(** A date prefix is the first ten characters of its input, which goes
    on with [T]. *)
Lemma date_prefix_shape (U : UnicodeData) (iso : str) :
  date_prefix U iso <> [] ->
  match_date U (lit "T") iso = true
  /\ date_prefix U iso = firstn 10 iso
  /\ List.length (date_prefix U iso) = 10.
Proof.
  unfold date_prefix. destruct iso as [|c iso]; [congruence|].
  destruct (match_date U (lit "T") (c :: iso)) eqn:E; [|congruence].
  intros _. split; [reflexivity|]. split; [reflexivity|].
  unfold match_date in E.
  destruct iso as [|c2 [|c3 [|c4 [|c5 [|c6 [|c7 [|c8 [|c9 [|c10 r]]]]]]]]];
    try discriminate E.
  reflexivity.
Qed.

Lemma match_date_prefix (U : UnicodeData) (tail iso rest : str) :
  match_date U tail iso = true ->
  match_date U (lit " - ") (firstn 10 iso ++ lit " - " ++ rest) = true.
Proof.
  unfold match_date.
  destruct iso as [|c1 [|c2 [|c3 [|c4 [|c5 [|c6 [|c7 [|c8 [|c9 [|c10 r]]]]]]]]]];
    try discriminate.
  intros H. cbn [firstn app].
  apply andb_true_iff in H as [H _]. rewrite H. reflexivity.
Qed.

(** X7. A folder name the Migrator builds from a creation time with a
    date prefix starts with that date and [" - "]: it matches the dated
    pattern, so a later run skips the folder, and it is not shaped like a
    conversation id. *)
Theorem dated_target_is_skipped (U : UnicodeData) (conv_title conv_date : str) :
  date_prefix U conv_date <> [] ->
  new_foldername_of U conv_title conv_date
  = firstn 10 conv_date ++ lit " - " ++ sanitize conv_title
  /\ date_prefix_re U (new_foldername_of U conv_title conv_date) = true
  /\ uuid_re (new_foldername_of U conv_title conv_date) = false
  /\ is_empty (new_foldername_of U conv_title conv_date) = false.
Proof.
  intros Hd. destruct (date_prefix_shape U conv_date Hd) as (Hm & Hp & Hl).
  assert (Hn : new_foldername_of U conv_title conv_date
               = firstn 10 conv_date ++ lit " - " ++ sanitize conv_title).
  { unfold new_foldername_of.
    destruct (date_prefix U conv_date) eqn:E; [congruence|].
    cbn [is_empty]. now rewrite Hp. }
  assert (Hre : date_prefix_re U (new_foldername_of U conv_title conv_date)
                = true).
  { rewrite Hn. unfold date_prefix_re. eapply match_date_prefix; eauto. }
  split; [exact Hn|]. split; [exact Hre|]. split.
  - now apply date_prefix_re_not_uuid with (U := U).
  - destruct (new_foldername_of U conv_title conv_date); [discriminate Hre|].
    reflexivity.
Qed.

Lemma dated_target_is_skipped_witness :
  new_foldername_of ascii_only (lit "[My Conversation]")
    (lit "2024-01-01T00:00:00Z")
  = lit "2024-01-01 - _My Conversation_"
  /\ date_prefix_re ascii_only (lit "2024-01-01 - _My Conversation_") = true.
Proof.
  destruct (dated_target_is_skipped ascii_only (lit "[My Conversation]")
              (lit "2024-01-01T00:00:00Z")) as (H1 & H2 & _).
  - discriminate.
  - split; [exact H1|exact H2].
Defined.

(** The index of a vault all of whose conversations carry a dated
    creation time sends every folder to a dated name. *)
Lemma dated_index_settles (U : UnicodeData) (titles dates : dict str) :
  (forall k, In k (map fst titles) ->
             date_prefix U (dict_get k [] dates) <> []) ->
  targets_settle U titles dates = true.
Proof.
  intros H. unfold targets_settle. apply forallb_forall. intros k Hk.
  destruct (active U titles k); cbn [negb orb]; [|reflexivity].
  destruct (dated_target_is_skipped U (dict_get k [] titles)
              (dict_get k [] dates) (H k Hk)) as (_ & _ & Hu & He).
  unfold target_of. now rewrite Hu, He.
Qed.

(* ================================================================== *)
(** * More on sanitization *)
(* ================================================================== *)

(** X8. The result of [sanitize] holds none of the fifteen characters of
    the class of its pattern, its only white space characters are single
    spaces between other characters, and it neither starts nor ends with
    white space. *)
Theorem sanitize_result_clean (s : str) (c : char) :
  (In c (sanitize s) ->
   mem_char c forbidden_chars = false /\ (is_space c = true -> c = 32%N))
  /\ ws_normal false (sanitize s) = true
  /\ strip (sanitize s) = sanitize s.
Proof.
  split; [|split].
  - intros Hin. split; [now apply sanitize_no_forbidden with (s := s)|].
    unfold sanitize, strip in Hin. apply in_strip_by in Hin.
    apply in_collapse_ws in Hin as [->|[_ Hns]]; [reflexivity|].
    congruence.
  - unfold sanitize. apply ws_normal_strip, collapse_ws_normal.
  - unfold sanitize, strip. apply strip_by_idem.
Qed.

Lemma sanitize_result_clean_witness :
  mem_char 95%N forbidden_chars = false
  /\ sanitize (lit "  a/b:  c.d [x]  ") = lit "a_b_ c_d _x_".
Proof.
  destruct (sanitize_result_clean (lit "  a/b:  c.d [x]  ") 95%N) as [H _].
  split; [|reflexivity].
  apply H. vm_compute. tauto.
Defined.

(** X9. Sanitizing a sanitized name changes nothing. *)
Theorem sanitize_twice (s : str) : sanitize (sanitize s) = sanitize s.
Proof. apply sanitize_idempotent. Qed.

(* ================================================================== *)
(** * The short-circuit of the substitution passes *)
(* ================================================================== *)

Lemma link_prefix_has_marker (s : str) :
  contains (lit "artifacts/") (link_prefix ++ s) = true.
Proof.
  apply contains_split.
  exists (lit "AI/Attachments/claude/"), s. reflexivity.
Qed.

Lemma apply_links_untouched (lm : dict str) (c : str) :
  (forall o n, In (o, n) lm -> contains o c = false) ->
  apply_links lm c = c
  /\ forall k, apply_links_count lm c c k = (c, k).
Proof.
  induction lm as [|[o n] lm IH]; intros H; cbn [apply_links apply_links_count].
  - now split.
  - rewrite (H o n (or_introl eq_refl)).
    apply IH. intros o' n' Hin. apply (H o' n'). now right.
Qed.

(** X10. The short-circuit on ["artifacts/"] loses no link: every old
    link of the index holds ["artifacts/"], so on a document without it
    the substitution loops of both passes would change nothing. *)
Theorem short_circuit_loses_no_link (U : UnicodeData) (art : dirlist)
  (c : str) :
  contains (lit "artifacts/") c = false ->
  (forall o n, In (o, n) (build_link_map U art) -> contains o c = false)
  /\ apply_links (build_link_map U art) c = c
  /\ apply_links_count (build_link_map U art) c c 0 = (c, 0%Z).
Proof.
  intros Hno.
  assert (Hkeys : forall o n, In (o, n) (build_link_map U art) ->
                              contains o c = false).
  { intros o n Hin. unfold build_link_map in Hin.
    apply index_folders_sound in Hin as [[]|Hin].
    destruct Hin as (fn & fes & fname & _ & _ & _ & Hg).
    destruct Hg as (_ & _ & _ & _ & Ho & _).
    destruct (contains o c) eqn:E; [|reflexivity].
    exfalso.
    assert (Hyes : contains (lit "artifacts/") c = true).
    { apply (contains_trans _ o); [|exact E].
      rewrite Ho. apply link_prefix_has_marker. }
    congruence. }
  split; [exact Hkeys|].
  destruct (apply_links_untouched _ c Hkeys) as [H1 H2].
  split; [exact H1|apply H2].
Qed.

Lemma short_circuit_loses_no_link_witness :
  apply_links (build_link_map ascii_only unmigrated_artifacts)
    draft_frontmatter = draft_frontmatter.
Proof.
  apply (short_circuit_loses_no_link ascii_only unmigrated_artifacts
           draft_frontmatter).
  reflexivity.
Defined.

(* ================================================================== *)
(** * The conversation index *)
(* ================================================================== *)

Lemma dict_set_keys (V : Type) (k : str) (v : V) (d : dict V) :
  map fst (dict_set k v d)
  = if existsb (str_eqb k) (map fst d) then map fst d else map fst d ++ [k].
Proof.
  induction d as [|[k' v'] d IH]; simpl; [reflexivity|].
  destruct (str_eqb k k') eqn:E; simpl; [reflexivity|].
  rewrite IH. now destruct (existsb (str_eqb k) (map fst d)).
Qed.

Lemma dict_set_same_keys (V W : Type) (k : str) (v : V) (w : W)
  (d1 : dict V) (d2 : dict W) :
  map fst d1 = map fst d2 ->
  map fst (dict_set k v d1) = map fst (dict_set k w d2).
Proof.
  intros H. rewrite !dict_set_keys. now rewrite H.
Qed.

Lemma dict_find_in (V : Type) (k : str) (v : V) (d : dict V) :
  dict_find k d = Some v -> In (k, v) d.
Proof.
  induction d as [|[k' v'] d IH]; simpl; [discriminate|].
  destruct (str_eqb k k') eqn:E.
  - apply str_eqb_eq in E. subst k'. intros H. inversion H. now left.
  - intros H. right. now apply IH.
Qed.

Lemma dict_find_none_keys (V : Type) (k : str) (d : dict V) :
  dict_find k d = None <-> existsb (str_eqb k) (map fst d) = false.
Proof.
  induction d as [|[k' v'] d IH]; simpl; [tauto|].
  destruct (str_eqb k k'); simpl; [split; discriminate|exact IH].
Qed.

Lemma dict_get_empty_iff (k : str) (d : dict str) :
  (forall t, In (k, t) d -> t <> []) ->
  is_empty (dict_get k [] d) = true <-> dict_find k d = None.
Proof.
  unfold dict_get. induction d as [|[k' v] d IH]; intros Hv; simpl.
  - split; reflexivity.
  - destruct (str_eqb k k') eqn:E.
    + apply str_eqb_eq in E. subst k'.
      destruct v as [|c v]; [exfalso; apply (Hv []); [now left|reflexivity]|].
      simpl. split; intros H; discriminate H.
    + apply IH. intros t Hin. apply Hv. now right.
Qed.

Section ConversationIndex.

Context (U : UnicodeData).

Lemma index_file_ok (f : str * option str) (idx : dict str * dict str) :
  index_ok idx -> index_ok (index_file U f idx).
Proof.
  intros [Hk Hv]. destruct f as [fname data]. destruct idx as [titles dates].
  unfold index_file.
  destruct (ends_with (lit ".md") fname); cbn [negb]; [|now split].
  set (fm := parse_frontmatter_text U data).
  destruct (is_empty (dict_get (lit "conversation_id") [] fm)) eqn:Ec;
    cbn [negb andb]; [now split|].
  destruct (is_empty (dict_get (lit "aliases") [] fm)) eqn:Ea;
    cbn [negb]; [now split|].
  cbn [fst snd] in *. split; cbn [fst snd].
  - now apply dict_set_same_keys.
  - intros k t Hin. apply in_dict_set in Hin as [Hin|[-> ->]].
    + now apply Hv.
    + apply is_empty_false in Ec, Ea. now split.
Qed.

Lemma index_files_ok (l : list (str * option str)) (idx : dict str * dict str) :
  index_ok idx ->
  index_ok (fold_left (fun i f => index_file U f i) l idx).
Proof.
  revert idx; induction l as [|f l IH]; intros idx H; simpl; [exact H|].
  apply IH. now apply index_file_ok.
Qed.

Lemma index_steps_ok (steps : list (list str * list (str * option str)))
  (idx : dict str * dict str) :
  index_ok idx ->
  index_ok
    (fold_left
       (fun idx step => fold_left (fun i f => index_file U f i) (snd step) idx)
       steps idx).
Proof.
  revert idx; induction steps as [|s steps IH]; intros idx H; simpl;
    [exact H|].
  apply IH. now apply index_files_ok.
Qed.

Lemma build_conversation_index_ok (conv : option node) :
  index_ok (build_conversation_index U conv).
Proof.
  unfold build_conversation_index.
  assert (H0 : index_ok (([] : dict str), ([] : dict str))).
  { split; [reflexivity|]. intros k t []. }
  destruct conv as [[data|es]|]; try exact H0.
  now apply index_steps_ok.
Qed.

End ConversationIndex.

(** X11. The two dictionaries of the conversation index always have the
    same ids in the same order, and no indexed id or title is empty: so
    the title looked up for a folder is empty exactly when its id is not
    in the index, and then the id has no date either. Without a
    conversations directory the index is empty. *)
Theorem conversation_index_invariant (U : UnicodeData) (conv : option node)
  (k t : str) :
  let titles := fst (build_conversation_index U conv) in
  let dates := snd (build_conversation_index U conv) in
  map fst titles = map fst dates
  /\ (In (k, t) titles -> k <> [] /\ t <> [])
  /\ (is_empty (dict_get k [] titles) = true <-> dict_find k titles = None)
  /\ (dict_find k titles = None <-> dict_find k dates = None)
  /\ (is_dir conv = false -> titles = [] /\ dates = []).
Proof.
  intros titles dates.
  destruct (build_conversation_index_ok U conv) as [Hk Hv].
  fold titles in Hk, Hv. fold dates in Hk.
  split; [exact Hk|]. split; [apply Hv|]. split; [|split].
  - apply dict_get_empty_iff. intros t0 Hin. now apply (Hv k t0).
  - rewrite !dict_find_none_keys, Hk. tauto.
  - intros Hd. subst titles dates.
    destruct conv as [[data|es]|]; try discriminate Hd; now split.
Qed.

Lemma conversation_index_invariant_witness :
  uuid1 <> [] /\ lit "Shared" <> []
  /\ fst (build_conversation_index ascii_only (Some (File None))) = [].
Proof.
  destruct (conversation_index_invariant ascii_only
              (conversations shared_vault) uuid1 (lit "Shared"))
    as (_ & Hin & _).
  destruct (conversation_index_invariant ascii_only (Some (File None))
              uuid1 (lit "Shared")) as (_ & _ & _ & _ & Hd).
  assert (Ht : fst (build_conversation_index ascii_only
                      (conversations shared_vault))
               = [(uuid1, lit "Shared"); (uuid2, lit "Shared")])
    by (vm_compute; reflexivity).
  assert (Hmem : In (uuid1, lit "Shared")
                   (fst (build_conversation_index ascii_only
                           (conversations shared_vault)))).
  { rewrite Ht. left. reflexivity. }
  destruct (Hin Hmem) as [H1 H2].
  destruct (Hd eq_refl) as [H3 _].
  split; [exact H1|]. split; [exact H2|exact H3].
Defined.
